(** * The output logger of the amd-smi command line tool

    A shallow embedding of [amdsmi_cli/amdsmi_logger.py] (class
    [AMDSMILogger]) and the properties of its output shaping pipeline:
    the flattening of nested records, the per-compatibility store
    operations, and the csv and json emitters with their destinations. *)

From stdpp Require Import strings list gmap pretty.

Open Scope string_scope.
Open Scope list_scope.

#[local] Set Warnings "-register-all".

(** ** Python values

    The telemetry payloads are JSON-like Python objects.  Numbers are
    modelled by integers; dictionary keys are strings, as the code assumes
    when it joins them with ['_'].  A dictionary keeps its insertion order
    and its keys are unique, so it is an association list updated in place
    by [Dict.set].  Floating-point numbers are not modelled. *)

Inductive value : Type :=
  | VNone
  | VBool (b : bool)
  | VInt (n : Z)
  | VStr (s : string)
  | VList (l : list value)
  | VDict (d : list (string * value)).

Abbreviation dict := (list (string * value)).

#[global] Instance value_inhabited : Inhabited value := populate VNone.

Definition is_dict (v : value) : bool :=
  match v with VDict _ => true | _ => false end.

(** Python truthiness, as used by [if not self.output]. *)
Definition truthy (v : value) : bool :=
  match v with
  | VNone => false
  | VBool b => b
  | VInt n => negb (Z.eqb n 0)
  | VStr s => negb (String.eqb s "")
  | VList l => negb (Nat.eqb (length l) 0)
  | VDict d => negb (Nat.eqb (length d) 0)
  end.

Module Dict.

Definition keys (d : dict) : list string := fst <$> d.
Definition values (d : dict) : list value := snd <$> d.

(** [d.get(k)] *)
Fixpoint get (k : string) (d : dict) : option value :=
  match d with
  | [] => None
  | (k', v) :: r => if decide (k = k') then Some v else get k r
  end.

(** [d[k] = v]: an existing key keeps its position, a new key is
    appended. *)
Fixpoint set (k : string) (v : value) (d : dict) : dict :=
  match d with
  | [] => [(k, v)]
  | (k', v') :: r =>
      if decide (k = k') then (k', v) :: r else (k', v') :: set k v r
  end.

(** [d.update(other)] *)
Definition update (d other : dict) : dict :=
  fold_left (fun acc kv => set kv.1 kv.2 acc) other d.

Fixpoint remove (k : string) (d : dict) : dict :=
  match d with
  | [] => []
  | (k', v) :: r => if decide (k = k') then remove k r else (k', v) :: remove k r
  end.

(** [d.pop(k)]: [None] stands for the [KeyError] of a missing key. *)
Definition pop (k : string) (d : dict) : option (value * dict) :=
  match get k d with
  | Some v => Some (v, remove k d)
  | None => None
  end.

(** Python dictionaries have unique keys. *)
Definition wf (d : dict) : Prop := NoDup (keys d).

End Dict.

(** ** The flattening engine ([flatten_dict]) *)

(** Number of dictionary nodes and leaves of a value; lists are leaves of
    the flattening.  It bounds the depth of the recursion of
    [flatten_dict]. *)
Fixpoint value_size (v : value) : nat :=
  match v with
  | VDict d => S (list_sum (map (fun kv => value_size kv.2) d))
  | _ => 1
  end.

Definition dict_size (d : dict) : nat := value_size (VDict d).

(** Lines 182-189: the children of a dictionary with more than one entry
    are merged one level up, the entries of a dictionary child being
    prefixed by the child's key. *)
Definition value_with_parent_key (value : dict) : dict :=
  fold_left
    (fun acc pc =>
       match pc.2 with
       | VDict child_dict =>
           fold_left
             (fun acc' cv => Dict.set (pc.1 +:+ "_" +:+ cv.1) cv.2 acc')
             child_dict acc
       | child => Dict.set pc.1 child acc
       end)
    value [].

(** Lines 193-196: every child key is prefixed by [key]. *)
Definition gpuv_with_parent_key (key : string) (value : dict) : dict :=
  fold_left (fun acc cv => Dict.set (key +:+ "_" +:+ cv.1) cv.2 acc) value [].

Definition gpuv_parent_keys : list string :=
  ["asic"; "bus"; "pcie"; "vbios"; "board"; "limit"].

(** The dictionary on which [flatten_dict] recurses for the entry
    [(key, value)] of its argument (lines 181-196). *)
Definition flatten_arg (gpuvsmi : bool) (key : string) (value : dict) : dict :=
  let value1 :=
    if (1 <? length value)%nat then value_with_parent_key value else value in
  if gpuvsmi && bool_decide (key ∈ gpuv_parent_keys)
  then gpuv_with_parent_key key value1
  else value1.

(** The loop body of [flatten_dict], with the recursive call as a
    parameter. *)
Definition flatten_step (gpuvsmi : bool) (rec : dict -> dict)
    (output_dict : dict) (kv : string * value) : dict :=
  match kv.2 with
  | VDict value => Dict.update output_dict (rec (flatten_arg gpuvsmi kv.1 value))
  | value => Dict.set kv.1 value output_dict
  end.

(** The recursion of [flatten_dict] is on a rebuilt dictionary, not on a
    subterm: it is unfolded [n] times here, and [flatten_dict] below gives
    it the size of its argument, which is always enough
    ([flatten_dict_eq]). *)
Fixpoint flatten_fuel (gpuvsmi : bool) (n : nat) (target_dict : dict) : dict :=
  match n with
  | O => []
  | S n' =>
      fold_left (flatten_step gpuvsmi (flatten_fuel gpuvsmi n')) target_dict []
  end.

Definition flatten_dict (gpuvsmi : bool) (target_dict : dict) : dict :=
  flatten_fuel gpuvsmi (dict_size target_dict) target_dict.

(** The leaves of a value, as [flatten_dict] sees them: the values that
    are not dictionaries, reached through nested dictionaries only. *)
Fixpoint leaves (v : value) : list value :=
  match v with
  | VDict d => concat (map (fun kv => leaves kv.2) d)
  | _ => [v]
  end.

Definition dict_leaves (d : dict) : list value := leaves (VDict d).

(** A flat dictionary has no dictionary among its values. *)
Definition flat (d : dict) : Prop := Forall (fun kv => is_dict kv.2 = false) d.

(** ** Exceptions and results *)

Inductive exn : Type :=
  | TypeError
  | AttributeError
  | ValueError
  | KeyError
  | IndexError
  | UnboundLocalError.

Inductive result (A : Type) : Type :=
  | Ok (a : A)
  | Raise (e : exn).

Arguments Ok {A} a.
Arguments Raise {A} e.

(** ** The logger object

    [self.output] is a reference to a dictionary object that the store
    operations mutate in place, and that the multi-device list and the
    watch samples alias.  The objects live in [heap]; the payloads stored
    inside them are values.  The list object [self.multiple_device_output]
    is never rebound, so a reference to it needs no location.  The logger
    only holds references to objects it has allocated; a location without
    an object reads as [None]. *)

Abbreviation loc := nat.

(** The [values] of a watch sample: the current record object, or the
    multi-device list object. *)
Inductive wref : Type :=
  | WRecord (l : loc)
  | WMulti.

Inductive destination_t : Type :=
  | Stdout
  | FilePath (p : string).

(** The processor handle is an address; [AMDSMIHelpers] resolves it to
    the gpu id. *)
Definition device_handle : Type := Z.

Record AMDSMIHelpers : Type := {
  get_gpu_id_from_device_handle : device_handle -> Z
}.

Record AMDSMILogger : Type := {
  heap : gmap loc value;
  output : loc;
  multiple_device_output : list loc;
  watch_output : list (Z * wref);
  compatibility : string;
  format : string;
  destination : destination_t;
  amd_smi_helpers : AMDSMIHelpers
}.

Definition init (compatibility_ format_ : string) (destination_ : destination_t)
    (helpers : AMDSMIHelpers) : AMDSMILogger :=
  {| heap := {[ 0%nat := VDict [] ]};
     output := 0%nat;
     multiple_device_output := [];
     watch_output := [];
     compatibility := compatibility_;
     format := format_;
     destination := destination_;
     amd_smi_helpers := helpers |}.

Definition with_heap (h : gmap loc value) (st : AMDSMILogger) : AMDSMILogger :=
  {| heap := h;
     output := output st;
     multiple_device_output := multiple_device_output st;
     watch_output := watch_output st;
     compatibility := compatibility st;
     format := format st;
     destination := destination st;
     amd_smi_helpers := amd_smi_helpers st |}.

Definition with_output (l : loc) (st : AMDSMILogger) : AMDSMILogger :=
  {| heap := heap st;
     output := l;
     multiple_device_output := multiple_device_output st;
     watch_output := watch_output st;
     compatibility := compatibility st;
     format := format st;
     destination := destination st;
     amd_smi_helpers := amd_smi_helpers st |}.

Definition with_multiple_device_output (m : list loc) (st : AMDSMILogger)
    : AMDSMILogger :=
  {| heap := heap st;
     output := output st;
     multiple_device_output := m;
     watch_output := watch_output st;
     compatibility := compatibility st;
     format := format st;
     destination := destination st;
     amd_smi_helpers := amd_smi_helpers st |}.

Definition with_watch_output (wo : list (Z * wref)) (st : AMDSMILogger)
    : AMDSMILogger :=
  {| heap := heap st;
     output := output st;
     multiple_device_output := multiple_device_output st;
     watch_output := wo;
     compatibility := compatibility st;
     format := format st;
     destination := destination st;
     amd_smi_helpers := amd_smi_helpers st |}.

(** The object a reference points to. *)
Definition deref (st : AMDSMILogger) (l : loc) : value := heap st !!! l.

(** The object [self.output] refers to. *)
Definition record (st : AMDSMILogger) : value := deref st (output st).

Definition is_json_format (st : AMDSMILogger) : bool :=
  bool_decide (format st = "json").
Definition is_csv_format (st : AMDSMILogger) : bool :=
  bool_decide (format st = "csv").
Definition is_human_readable_format (st : AMDSMILogger) : bool :=
  bool_decide (format st = "human_readable").
Definition is_amdsmi_compatibility (st : AMDSMILogger) : bool :=
  bool_decide (compatibility st = "amdsmi").
Definition is_rocmsmi_compatibility (st : AMDSMILogger) : bool :=
  bool_decide (compatibility st = "rocmsmi").
Definition is_gpuvsmi_compatibility (st : AMDSMILogger) : bool :=
  bool_decide (compatibility st = "gpuvsmi").

(** *** Methods that change the logger *)

Definition M (A : Type) : Type := AMDSMILogger -> result A * AMDSMILogger.

Definition ret {A : Type} (a : A) : M A := fun st => (Ok a, st).

Definition raise {A : Type} (e : exn) : M A := fun st => (Raise e, st).

Definition bind {A B : Type} (m : M A) (k : A -> M B) : M B :=
  fun st =>
    match m st with
    | (Ok a, st') => k a st'
    | (Raise e, st') => (Raise e, st')
    end.

Notation "'do' x <- m ; k" := (bind m (fun x => k))
  (at level 10, x name, m at level 100, k at level 200,
   format "'[v' 'do'  x  <-  m ; '/' k ']'").
Notation "'run' m ; k" := (bind m (fun _ => k))
  (at level 10, m at level 100, k at level 200,
   format "'[v' 'run'  m ; '/' k ']'").

Definition get_self : M AMDSMILogger := fun st => (Ok st, st).

(** In-place mutation of the object [self.output] refers to. *)
Definition mutate_output (v : value) : M unit :=
  fun st => (Ok tt, with_heap (<[output st := v]> (heap st)) st).

(** [self.output = v]: a new object, and [self.output] rebound to it. *)
Definition rebind_output (v : value) : M unit :=
  fun st =>
    let l := fresh (dom (heap st)) in
    (Ok tt, with_output l (with_heap (<[l := v]> (heap st)) st)).

(** [self.output[k] = v] *)
Definition output_setitem (k : string) (v : value) : M unit :=
  fun st =>
    match record st with
    | VDict d => mutate_output (VDict (Dict.set k v d)) st
    | _ => raise TypeError st
    end.

(** [self.output.update(other)] *)
Definition output_update (other : dict) : M unit :=
  fun st =>
    match record st with
    | VDict d => mutate_output (VDict (Dict.update d other)) st
    | _ => raise AttributeError st
    end.

(** [self.flatten_dict(data)]: [data.items()] exists for dictionaries
    only. *)
Definition flatten_data (data : value) : M dict :=
  fun st =>
    match data with
    | VDict d => ret (flatten_dict (is_gpuvsmi_compatibility st) d) st
    | _ => raise AttributeError st
    end.

(** [raise amdsmi_cli_exceptions(self, "Invalid output format given, ...")]:
    [amdsmi_cli_exceptions] is the module bound by [import
    amdsmi_cli_exceptions] (line 31), and calling a module object raises
    [TypeError] before any exception object is built. *)
Definition raise_invalid_output_format {A : Type} : M A := raise TypeError.

(** Lines 233-239 and 264-270. *)
Definition store_csv (gpu_id : Z) (argument : string) (data : value) : M unit :=
  run output_setitem "gpu" (VInt gpu_id);
  if bool_decide (argument = "values") || is_dict data
  then do flat_dict <- flatten_data data; output_update flat_dict
  else output_setitem argument data.

Definition _store_output_amdsmi (gpu_id : Z) (argument : string) (data : value)
    : M unit :=
  do self <- get_self;
  if is_json_format self || is_human_readable_format self then
    run output_setitem "gpu" (VInt gpu_id);
    match data with
    | VDict d =>
        if bool_decide (argument = "values") then output_update d
        else output_setitem argument data
    | _ => output_setitem argument data
    end
  else if is_csv_format self then
    store_csv gpu_id argument data
  else raise_invalid_output_format.

Definition _store_output_rocmsmi (gpu_id : Z) (argument : string) (data : value)
    : M unit :=
  do self <- get_self;
  if is_json_format self then ret tt
  else if is_csv_format self then ret tt
  else if is_human_readable_format self then ret tt
  else raise_invalid_output_format.

(** ['AMDSMI_STATUS' in value] *)
Fixpoint is_substring (pat s : string) : bool :=
  String.prefix pat s
  || match s with
     | EmptyString => false
     | String _ s' => is_substring pat s'
     end.

Definition is_status_string (v : value) : bool :=
  match v with
  | VStr s => is_substring "AMDSMI_STATUS" s
  | _ => false
  end.

(** One iteration of the loop of lines 273-284 on [gpuv_flat_dict]. *)
Definition gpuv_step (acc : result dict) (kv : string * value) : result dict :=
  match acc with
  | Raise e => Raise e
  | Ok gpuv_flat_dict =>
      let d1 := Dict.set kv.1 kv.2 gpuv_flat_dict in
      let d2 := if is_status_string kv.2 then Dict.set kv.1 (VStr "N/A") d1 else d1 in
      if bool_decide (kv.1 ∈ ["bdf"; "uuid"]) then
        match Dict.pop kv.1 d2 with
        | Some (v, d3) => Ok (Dict.set ("gpu_" +:+ kv.1) v d3)
        | None => Raise KeyError
        end
      else Ok d2
  end.

Definition gpuv_postprocess (d : dict) : result dict :=
  fold_left gpuv_step d (Ok []).

Definition _store_output_gpuvsmi (gpu_id : Z) (argument : string) (data : value)
    : M unit :=
  do self <- get_self;
  if is_json_format self || is_human_readable_format self then
    run output_setitem "gpu" (VInt gpu_id);
    output_setitem argument data
  else if is_csv_format self then
    run store_csv gpu_id argument data;
    do self' <- get_self;
    match record self' with
    | VDict d =>
        match gpuv_postprocess d with
        | Ok gpuv_flat_dict => rebind_output (VDict gpuv_flat_dict)
        | Raise e => raise e
        end
    | _ => raise AttributeError
    end
  else raise_invalid_output_format.

Definition store_output (device_handle_ : device_handle) (argument : string)
    (data : value) : M unit :=
  do self <- get_self;
  let gpu_id :=
    get_gpu_id_from_device_handle (amd_smi_helpers self) device_handle_ in
  if is_amdsmi_compatibility self then _store_output_amdsmi gpu_id argument data
  else if is_rocmsmi_compatibility self then _store_output_rocmsmi gpu_id argument data
  else if is_gpuvsmi_compatibility self then _store_output_gpuvsmi gpu_id argument data
  else ret tt.

Definition store_multiple_device_output : M unit :=
  do self <- get_self;
  if negb (truthy (record self)) then ret tt
  else
    run (fun st =>
           (Ok tt,
            with_multiple_device_output
              (multiple_device_output st ++ [output st]) st));
    rebind_output (VDict []).

(** [now] is [int(time.time())]. *)
Definition store_watch_output (multiple_devices : bool) (now : Z) : M unit :=
  fun st =>
    let values := if multiple_devices then WMulti else WRecord (output st) in
    (Ok tt, with_watch_output (watch_output st ++ [(now, values)]) st).

(** *** The destinations and the emitters

    The terminal is the list of the texts printed so far, the disk maps a
    path to the content of its file.  The serializers of the [json] and
    [csv] libraries are an interface: [json_dumps v] is the text of
    [json.dumps(v, indent=4)], and [csv_writerow row] the line that
    [csv.writer] writes for the list of cells [row]. *)

Record world : Type := {
  terminal : list string;
  disk : gmap string string
}.

Class Serializers : Type := {
  json_dumps : value -> string;
  csv_writerow : list value -> string
}.

Definition file_content (w : world) (p : string) : string :=
  default "" (disk w !! p).

(** [print(text)] *)
Definition print (text : string) (w : world) : world :=
  {| terminal := terminal w ++ [text]; disk := disk w |}.

(** [open('a')] followed by the write of [text]: the file is created when
    it does not exist. *)
Definition file_append (p text : string) (w : world) : world :=
  {| terminal := terminal w;
     disk := <[p := file_content w p +:+ text]> (disk w) |}.

(** [open('w')] followed by the write of [text]. *)
Definition file_overwrite (p text : string) (w : world) : world :=
  {| terminal := terminal w; disk := <[p := text]> (disk w) |}.

(** What [json.dump] sees of the objects the logger refers to. *)
Definition multiple_device_value (st : AMDSMILogger) : list value :=
  deref st <$> multiple_device_output st.

Definition wref_value (st : AMDSMILogger) (r : wref) : value :=
  match r with
  | WRecord l => deref st l
  | WMulti => VList (multiple_device_value st)
  end.

Definition watch_sample (st : AMDSMILogger) (s : Z * wref) : value :=
  VDict [("timestamp", VInt s.1); ("values", wref_value st s.2)].

Definition watch_value (st : AMDSMILogger) : value :=
  VList (watch_sample st <$> watch_output st).

(** Line 381: every double-quote character (code 34) is removed. *)
Definition double_quote : Ascii.ascii := Ascii.ascii_of_nat 34.

Fixpoint remove_double_quotes (s : string) : string :=
  match s with
  | EmptyString => EmptyString
  | String c s' =>
      if Ascii.eqb c double_quote then remove_double_quotes s'
      else String c (remove_double_quotes s')
  end.

Section Emitters.

Context `{Serializers}.

(** Lines 343-346: the value that a non-watch call serializes. *)
Definition json_output (multiple_device_output_ : bool) (st : AMDSMILogger)
    : value :=
  if multiple_device_output_ then VList (multiple_device_value st)
  else record st.

Definition _print_json_output (multiple_device_output_ watch_output_ : bool)
    (st : AMDSMILogger) (w : world) : result unit * world :=
  match destination st with
  | Stdout =>
      if watch_output_ then (Ok tt, w)
      else (Ok tt, print (json_dumps (json_output multiple_device_output_ st)) w)
  | FilePath p =>
      if watch_output_
      then (Ok tt, file_overwrite p (json_dumps (watch_value st)) w)
      else
        (Ok tt,
         file_append p (json_dumps (json_output multiple_device_output_ st)) w)
  end.

(** [csv.DictWriter._dict_to_list] with the default [restval=''] and
    [extrasaction='raise']. *)
Definition _dict_to_list (fieldnames : list string) (rowdict : value)
    : result (list value) :=
  match rowdict with
  | VDict d =>
      if bool_decide (Forall (fun k => k ∈ fieldnames) (Dict.keys d))
      then Ok ((fun k => default (VStr "") (Dict.get k d)) <$> fieldnames)
      else Raise ValueError
  | _ => Raise AttributeError
  end.

(** [DictWriter.writerows]: the rows are converted and written one after
    the other, so the rows before a failing one are written. *)
Fixpoint writerows (fieldnames : list string) (rowdicts : list value)
    (written : string) : result unit * string :=
  match rowdicts with
  | [] => (Ok tt, written)
  | rowdict :: rest =>
      match _dict_to_list fieldnames rowdict with
      | Ok row => writerows fieldnames rest (written +:+ csv_writerow row)
      | Raise e => (Raise e, written)
      end
  end.

Definition writeheader (fieldnames : list string) : string :=
  csv_writerow (VStr <$> fieldnames).

(** Lines 374-378 and 386-389: the header is the key list of the first
    record. *)
Definition write_csv (stored_csv_output : list value) : result unit * string :=
  match stored_csv_output with
  | [] => (Raise IndexError, "")
  | VDict first :: _ =>
      let csv_header := Dict.keys first in
      writerows csv_header stored_csv_output (writeheader csv_header)
  | _ :: _ => (Raise AttributeError, "")
  end.

(** [stored_csv_output] is bound on two of the three paths of lines
    367-371; [None] is the unbound local variable. *)
Definition stored_csv_output (multiple_device_output_ : bool)
    (st : AMDSMILogger) : option (list value) :=
  if multiple_device_output_ then Some (multiple_device_value st)
  else
    match record st with
    | VList _ => None
    | o => Some [o]
    end.

Definition _print_csv_output (multiple_device_output_ watch_output_ : bool)
    (st : AMDSMILogger) (w : world) : result unit * world :=
  if watch_output_ then (Ok tt, w)
  else
    let stored := stored_csv_output multiple_device_output_ st in
    match destination st with
    | Stdout =>
        match stored with
        | None => (Raise UnboundLocalError, w)
        | Some records =>
            match write_csv records with
            | (Ok _, csv_stdout_output) =>
                if is_gpuvsmi_compatibility st
                then (Ok tt, print (remove_double_quotes csv_stdout_output) w)
                else (Ok tt, print csv_stdout_output w)
            | (Raise e, _) => (Raise e, w)
            end
        end
    | FilePath p =>
        match stored with
        | None => (Raise UnboundLocalError, file_append p "" w)
        | Some records =>
            let (r, text) := write_csv records in
            (r, file_append p text w)
        end
    end.

End Emitters.

(** *** Sequences of calls

    The watch loop of the command line tool is a caller of the logger: at
    each tick it stores the telemetry of the devices, takes a watch sample
    and prints; when the loop ends it prints once more with
    [watch_output=True].  With the json format [print_output] is
    [_print_json_output]. *)

Inductive call : Type :=
  | CallStoreOutput (h : device_handle) (argument : string) (data : value)
  | CallStoreMultipleDeviceOutput
  | CallStoreWatchOutput (multiple_devices : bool) (now : Z)
  | CallPrintJsonOutput (multiple_device_output_ watch_output_ : bool).

Section Calls.

Context `{Serializers}.

Definition exec_call (c : call) (s : AMDSMILogger * world)
    : result unit * (AMDSMILogger * world) :=
  match c with
  | CallStoreOutput h argument data =>
      let (r, st') := store_output h argument data s.1 in (r, (st', s.2))
  | CallStoreMultipleDeviceOutput =>
      let (r, st') := store_multiple_device_output s.1 in (r, (st', s.2))
  | CallStoreWatchOutput multiple_devices now =>
      let (r, st') := store_watch_output multiple_devices now s.1 in
      (r, (st', s.2))
  | CallPrintJsonOutput m wo =>
      let (r, w') := _print_json_output m wo s.1 s.2 in (r, (s.1, w'))
  end.

(** The calls in sequence; an exception ends the sequence. *)
Fixpoint exec_calls (cs : list call) (s : AMDSMILogger * world)
    : result unit * (AMDSMILogger * world) :=
  match cs with
  | [] => (Ok tt, s)
  | c :: cs' =>
      match exec_call c s with
      | (Ok _, s') => exec_calls cs' s'
      | (Raise e, s') => (Raise e, s')
      end
  end.

End Calls.

(** The calls that collect the telemetry of a tick. *)
Definition is_collect (c : call) : Prop :=
  match c with
  | CallStoreOutput _ _ _ | CallStoreMultipleDeviceOutput => True
  | _ => False
  end.

(** One tick of a watch session: collect, sample, print. *)
Definition watch_tick (collect : list call) (multiple_devices : bool) (now : Z)
    : list call :=
  collect
  ++ [CallStoreWatchOutput multiple_devices now;
      CallPrintJsonOutput multiple_devices false].

(** *** A serializer to run the examples

    Compact json without escaping, and comma-separated cells; the
    properties below hold for every serializer. *)

Definition quoted (s : string) : string :=
  String double_quote (s +:+ String double_quote "").

Fixpoint json_compact (v : value) : string :=
  match v with
  | VNone => "null"
  | VBool b => if b then "true" else "false"
  | VInt n => pretty n
  | VStr s => quoted s
  | VList l => "[" +:+ String.concat ", " (map json_compact l) +:+ "]"
  | VDict d =>
      "{"
      +:+ String.concat ", "
            (map (fun kv => quoted kv.1 +:+ ": " +:+ json_compact kv.2) d)
      +:+ "}"
  end.

Definition csv_cell (v : value) : string :=
  match v with
  | VStr s => s
  | VNone => ""
  | _ => json_compact v
  end.

Definition crlf : string :=
  String (Ascii.ascii_of_nat 13) (String (Ascii.ascii_of_nat 10) "").

#[global] Instance compact_serializers : Serializers :=
  {| json_dumps := json_compact;
     csv_writerow := fun row => String.concat "," (csv_cell <$> row) +:+ crlf |}.

(** ** Notions used to state the properties *)

(** The sizes of the values of a dictionary, summed. *)
Definition sum_size (d : dict) : nat :=
  list_sum (map (fun kv => value_size kv.2) d).

(** A method that leaves the watch history and the destination as they
    are, whether it returns or raises. *)
Definition preserves_session {A : Type} (m : M A) : Prop :=
  forall st,
    watch_output (m st).2 = watch_output st
    /\ destination (m st).2 = destination st.

(** The gpu id that [store_output] resolves from a device handle. *)
Definition gpu_id_of (st : AMDSMILogger) (h : device_handle) : Z :=
  get_gpu_id_from_device_handle (amd_smi_helpers st) h.

(** The current record is a Python dictionary: its keys are unique. *)
Definition record_wf (st : AMDSMILogger) : Prop :=
  forall d, record st = VDict d -> Dict.wf d.

(** The key and the value under which the loop of lines 273-284 leaves an
    entry [(k, v)] of the record. *)
Definition gpuv_key (k : string) : string :=
  if bool_decide (k ∈ ["bdf"; "uuid"]) then "gpu_" +:+ k else k.

Definition gpuv_value (v : value) : value :=
  if is_status_string v then VStr "N/A" else v.

Definition gpuv_entry (kv : string * value) : string * value :=
  (gpuv_key kv.1, gpuv_value kv.2).

(** The store of the tabular format as the specification words it: the
    data always goes through [flatten_dict] and is then merged. *)
Definition store_csv_always_flatten (gpu_id : Z) (data : value) : M unit :=
  run output_setitem "gpu" (VInt gpu_id);
  do flat_dict <- flatten_data data;
  output_update flat_dict.

(** One watch sample, as [json.dump] writes it. *)
Definition watch_entry (now : Z) (values : value) : value :=
  VDict [("timestamp", VInt now); ("values", values)].

Section CsvText.

Context `{Serializers}.

(** The cells of a record under the columns [fieldnames]. *)
Definition csv_row (fieldnames : list string) (d : dict) : list value :=
  (fun k => default (VStr "") (Dict.get k d)) <$> fieldnames.

(** The header line of [fieldnames] followed by one line per record. *)
Definition csv_text (fieldnames : list string) (records : list dict) : string :=
  fold_left (fun written d => written +:+ csv_writerow (csv_row fieldnames d))
    records (writeheader fieldnames).

(** The destination after the csv text [text] is emitted. *)
Definition emit_csv (st : AMDSMILogger) (text : string) (w : world) : world :=
  match destination st with
  | Stdout =>
      print (if is_gpuvsmi_compatibility st then remove_double_quotes text
             else text) w
  | FilePath p => file_append p text w
  end.

End CsvText.

(** A resolver for the examples: the handle is the gpu id. *)
Definition sample_helpers : AMDSMIHelpers :=
  {| get_gpu_id_from_device_handle := fun h => h |}.

(** ** Key capitalization ([_capitalize_keys])

    [str.upper] is a method of the built-in string type: it follows the
    case mappings of Unicode, where the upper-case form of a string may be
    longer than the string.  The logger relies on it as on a library
    function, so it is an interface here, with the one law of [str.upper]
    that the properties below need: the upper-case form of a string is its
    own upper-case form. *)

Class StrUpper : Type := {
  upper : string -> string;
  upper_idempotent : forall s, upper (upper s) = upper s
}.

Section Capitalization.

Context `{StrUpper}.

(** What [_capitalize_keys] stores for the value of a key (lines 102-113):
    a dictionary is capitalized, the dictionaries among the items of a list
    are capitalized, anything else is kept; a list inside a list is kept
    as it is. *)
Fixpoint capitalize_value (v : value) : value :=
  match v with
  | VDict input_dict =>
      VDict
        (fold_left
           (fun output_dict kv =>
              Dict.set (upper kv.1) (capitalize_value kv.2) output_dict)
           input_dict [])
  | VList l =>
      VList
        (map (fun data =>
                match data with
                | VDict _ => capitalize_value data
                | _ => data
                end) l)
  | _ => v
  end.

Definition _capitalize_keys (input_dict : dict) : dict :=
  fold_left
    (fun output_dict kv =>
       Dict.set (upper kv.1) (capitalize_value kv.2) output_dict)
    input_dict [].

Definition capitalize_entry (kv : string * value) : string * value :=
  (upper kv.1, capitalize_value kv.2).

End Capitalization.

(** *** An upper-case function to run the examples

    On a string of ASCII characters [str.upper] maps the letters [a]-[z]
    to [A]-[Z] and keeps every other character.  The examples have ASCII
    keys only; the properties hold for every instance of [StrUpper]. *)

Definition upper_ascii (c : Ascii.ascii) : Ascii.ascii :=
  let n := Ascii.nat_of_ascii c in
  if (97 <=? n)%nat && (n <=? 122)%nat then Ascii.ascii_of_nat (n - 32) else c.

Fixpoint upper_ascii_string (s : string) : string :=
  match s with
  | EmptyString => EmptyString
  | String c s' => String (upper_ascii c) (upper_ascii_string s')
  end.

#[global] Instance ascii_upper : StrUpper.
Proof.
  refine {| upper := upper_ascii_string |}.
  intros s. induction s as [|c s IH]; [reflexivity|].
  cbn [upper_ascii_string]. rewrite IH. f_equal.
  destruct c as [[] [] [] [] [] [] [] []]; reflexivity.
Defined.

(** The number of nodes of a value, lists included. *)
Fixpoint weight (v : value) : nat :=
  match v with
  | VDict d => S (list_sum (map (fun kv => weight kv.2) d))
  | VList l => S (list_sum (map weight l))
  | _ => 1
  end.

(** ** More notions used to state the properties *)

(** The entry of a child under the key of its parent (line 195). *)
Definition prefix_entry (key : string) (cv : string * value) : string * value :=
  (key +:+ "_" +:+ cv.1, cv.2).

(** The entries that lines 183-188 write for the children of a
    dictionary: the entries of a dictionary child under the joined keys,
    any other child under its own key. *)
Definition join_children (value : dict) : dict :=
  concat
    ((fun pc =>
        match pc.2 with
        | VDict child_dict => prefix_entry pc.1 <$> child_dict
        | child => [(pc.1, child)]
        end) <$> value).

(** The writes of [flatten_dict] as a list, in the order of the writes and
    with nothing overwritten: [written_arg] lists the entries that lines
    181-196 write to [value_with_parent_key], and [written] those that
    lines 198 and 200 write to [output_dict].  No dictionary assignment is
    involved: a key that is written twice is there twice. *)
Definition written_arg (gpuvsmi : bool) (key : string) (value : dict) : dict :=
  let value1 := if (1 <? length value)%nat then join_children value else value in
  if gpuvsmi && bool_decide (key ∈ gpuv_parent_keys)
  then prefix_entry key <$> value1
  else value1.

Fixpoint written_fuel (gpuvsmi : bool) (n : nat) (target_dict : dict) : dict :=
  match n with
  | O => []
  | S n' =>
      concat
        ((fun kv =>
            match kv.2 with
            | VDict value =>
                written_fuel gpuvsmi n' (written_arg gpuvsmi kv.1 value)
            | value => [(kv.1, value)]
            end) <$> target_dict)
  end.

Definition written (gpuvsmi : bool) (target_dict : dict) : dict :=
  written_fuel gpuvsmi (dict_size target_dict) target_dict.

(** No key collides in the flattening of [target_dict]: the keys that the
    call writes to its [output_dict] are pairwise distinct, and for every
    dictionary among the values of [target_dict], the keys written to its
    [value_with_parent_key] are pairwise distinct and no key collides in
    the recursive call. *)
Fixpoint collision_free_fuel (gpuvsmi : bool) (n : nat) (target_dict : dict)
    : Prop :=
  match n with
  | O => True
  | S n' =>
      Dict.wf (written_fuel gpuvsmi (S n') target_dict)
      /\ Forall
           (fun kv =>
              match kv.2 with
              | VDict value =>
                  Dict.wf (written_arg gpuvsmi kv.1 value)
                  /\ collision_free_fuel gpuvsmi n'
                       (written_arg gpuvsmi kv.1 value)
              | _ => True
              end) target_dict
  end.

Definition collision_free (gpuvsmi : bool) (target_dict : dict) : Prop :=
  collision_free_fuel gpuvsmi (dict_size target_dict) target_dict.

(** The entries that a call of [flatten_dict] writes to its
    [output_dict], in the order of the writes (lines 198 and 200): the
    entries of the flattened dictionary for a dictionary value, the entry
    itself for any other value. *)
Definition output_writes (gpuvsmi : bool) (target_dict : dict) : dict :=
  concat
    ((fun kv =>
        match kv.2 with
        | VDict value => flatten_dict gpuvsmi (flatten_arg gpuvsmi kv.1 value)
        | value => [(kv.1, value)]
        end) <$> target_dict).

(** The dictionary [d] under the keys [ks], each of them the single entry
    of a dictionary: [wrap ["a"; "b"] d] is [{a: {b: d}}]. *)
Definition wrap (ks : list string) (d : dict) : dict :=
  foldr (fun k acc => [(k, VDict acc)]) d ks.

(** The entries that a store of the amdsmi or of the gpuvsmi compatibility
    writes to the record after it has set ["gpu"] (lines 227-230, 235-239,
    262 and 266-270): the entries of the data, flattened in the csv format,
    or the one entry of the key. *)
Definition stored_entries (st : AMDSMILogger) (argument : string) (data : value)
    : dict :=
  match data with
  | VDict d =>
      if is_csv_format st then flatten_dict (is_gpuvsmi_compatibility st) d
      else if is_amdsmi_compatibility st && bool_decide (argument = "values")
      then d
      else [(argument, data)]
  | _ => [(argument, data)]
  end.

(** A method that mutates the record object in place: [self.output] is
    not rebound, whether the method returns or raises. *)
Definition keeps_output {A : Type} (m : M A) : Prop :=
  forall st, output (m st).2 = output st.

(** The references of the logger point to objects. *)
Definition allocated (st : AMDSMILogger) (l : loc) : Prop :=
  is_Some (heap st !! l).

Definition wref_allocated (st : AMDSMILogger) (r : wref) : Prop :=
  match r with
  | WRecord l => allocated st l
  | WMulti => True
  end.

Definition logger_wf (st : AMDSMILogger) : Prop :=
  allocated st (output st)
  /\ Forall (allocated st) (multiple_device_output st)
  /\ Forall (fun s => wref_allocated st s.2) (watch_output st).

(** The calls of a watch session: one tick per pair of collect calls and
    timestamp. *)
Definition watch_ticks (ticks : list (list call * Z)) (multiple_devices : bool)
    : list call :=
  concat ((fun t => watch_tick t.1 multiple_devices t.2) <$> ticks).

(** The characters of a text. *)
Definition chars (s : string) : list Ascii.ascii := String.list_ascii_of_string s.

(** * Properties *)

(** ** Dictionaries *)

Lemma dict_set_fresh k v d :
  k ∉ Dict.keys d -> Dict.set k v d = d ++ [(k, v)].
Proof.
  induction d as [|[k' v'] r IH]; simpl; intros Hk; [done|].
  apply not_elem_of_cons in Hk as [Hne Hr].
  destruct (decide (k = k')); [done|]. by rewrite IH.
Qed.

Lemma dict_keys_set k v d :
  Dict.keys (Dict.set k v d)
  = if decide (k ∈ Dict.keys d) then Dict.keys d else Dict.keys d ++ [k].
Proof.
  induction d as [|[k' v'] r IH]; simpl; [done|].
  destruct (decide (k = k')) as [->|Hne]; simpl.
  - rewrite decide_True; [done | by left].
  - rewrite IH. destruct (decide (k ∈ Dict.keys r)) as [Hin|Hin].
    + rewrite decide_True; [done | by right].
    + rewrite decide_False; [done|]. by intros [?|?]%elem_of_cons.
Qed.

Lemma dict_set_wf k v d : Dict.wf d -> Dict.wf (Dict.set k v d).
Proof.
  unfold Dict.wf. intros Hd. rewrite dict_keys_set.
  destruct (decide (k ∈ Dict.keys d)); [done|].
  apply NoDup_app. split_and!; [done | | apply NoDup_singleton].
  intros x Hx ->%list_elem_of_singleton. done.
Qed.

Lemma dict_elem_of_keys_set k k' v d :
  k' ∈ Dict.keys (Dict.set k v d) <-> k' = k \/ k' ∈ Dict.keys d.
Proof.
  rewrite dict_keys_set. destruct (decide (k ∈ Dict.keys d)).
  - split; [by right | by intros [->|?]].
  - rewrite elem_of_app, list_elem_of_singleton. tauto.
Qed.

Lemma dict_get_set_eq k v d : Dict.get k (Dict.set k v d) = Some v.
Proof.
  induction d as [|[k' v'] r IH]; simpl.
  - by rewrite decide_True.
  - destruct (decide (k = k')) as [->|Hne]; simpl.
    + by rewrite decide_True.
    + by rewrite decide_False.
Qed.

Lemma dict_get_set_ne k k' v d :
  k <> k' -> Dict.get k' (Dict.set k v d) = Dict.get k' d.
Proof.
  intros Hne. induction d as [|[k0 v0] r IH]; simpl.
  - by rewrite decide_False.
  - destruct (decide (k = k0)) as [->|Hne0]; simpl.
    + by rewrite !decide_False.
    + by rewrite IH.
Qed.

Lemma dict_get_None k d : Dict.get k d = None <-> k ∉ Dict.keys d.
Proof.
  induction d as [|[k' v'] r IH]; simpl.
  - split; [intros _; apply not_elem_of_nil | done].
  - rewrite not_elem_of_cons. destruct (decide (k = k')); [|tauto].
    split; [done | tauto].
Qed.

Lemma dict_get_Some_elem_of k v d : Dict.get k d = Some v -> (k, v) ∈ d.
Proof.
  induction d as [|[k' v'] r IH]; simpl; [done|].
  destruct (decide (k = k')) as [->|Hne].
  - intros [= ->]. by left.
  - intros Hr. right. by apply IH.
Qed.

Lemma dict_elem_of_get k v d : Dict.wf d -> (k, v) ∈ d -> Dict.get k d = Some v.
Proof.
  unfold Dict.wf. induction d as [|[k' v'] r IH]; simpl; intros Hwf Hin.
  - by apply elem_of_nil in Hin.
  - apply NoDup_cons in Hwf as [Hk' Hr].
    apply elem_of_cons in Hin as [[= -> ->]|Hin].
    + by rewrite decide_True.
    + rewrite decide_False; [by apply IH|].
      intros ->. apply Hk'. apply list_elem_of_fmap. by exists (k', v).
Qed.

Lemma dict_update_cons d kv other :
  Dict.update d (kv :: other) = Dict.update (Dict.set kv.1 kv.2 d) other.
Proof. done. Qed.

Lemma dict_update_wf d other : Dict.wf d -> Dict.wf (Dict.update d other).
Proof.
  revert d. induction other as [|kv other IH]; intros d Hd; [done|].
  rewrite dict_update_cons. by apply IH, dict_set_wf.
Qed.

Lemma dict_elem_of_keys_update k d other :
  k ∈ Dict.keys (Dict.update d other)
  <-> k ∈ Dict.keys d \/ k ∈ Dict.keys other.
Proof.
  revert d. induction other as [|[k' v'] other IH]; intros d.
  - simpl. rewrite elem_of_nil. tauto.
  - rewrite dict_update_cons, IH, dict_elem_of_keys_set. simpl.
    rewrite elem_of_cons. tauto.
Qed.

Lemma dict_get_update_ne k d other :
  k ∉ Dict.keys other -> Dict.get k (Dict.update d other) = Dict.get k d.
Proof.
  revert d. induction other as [|[k' v'] other IH]; intros d Hk; [done|].
  simpl in Hk. apply not_elem_of_cons in Hk as [Hne Hk].
  rewrite dict_update_cons, IH by done. simpl. by apply dict_get_set_ne.
Qed.

(** Rebuilding a dictionary entry by entry gives it back. *)
Lemma dict_rebuild acc d :
  Dict.wf (acc ++ d) -> Dict.update acc d = acc ++ d.
Proof.
  unfold Dict.wf, Dict.keys. revert acc.
  induction d as [|[k v] d IH]; intros acc Hwf.
  - by rewrite app_nil_r.
  - rewrite dict_update_cons. simpl.
    rewrite fmap_app in Hwf. simpl in Hwf.
    rewrite dict_set_fresh.
    + rewrite IH; [by rewrite <- app_assoc|].
      rewrite <- app_assoc. simpl. by rewrite fmap_app.
    + apply NoDup_app in Hwf as (_ & Hdisj & _).
      intros Hin. apply (Hdisj k Hin). by left.
Qed.

(** ** Loops as folds *)

Lemma fold_left_invariant {A B : Type} (P : A -> Prop) (f : A -> B -> A)
    (l : list B) (a : A) :
  P a -> (forall a b, P a -> b ∈ l -> P (f a b)) -> P (fold_left f l a).
Proof.
  revert a. induction l as [|b l IH]; intros a Ha Hf; [done|].
  simpl. apply IH.
  - apply Hf; [done | by left].
  - intros a' b' Ha' Hb'. apply Hf; [done | by right].
Qed.

Lemma fold_left_ext_in {A B : Type} (f g : A -> B -> A) (l : list B) (a : A) :
  (forall a b, b ∈ l -> f a b = g a b) -> fold_left f l a = fold_left g l a.
Proof.
  revert a. induction l as [|b l IH]; intros a Hfg; [done|].
  simpl. rewrite Hfg by (by left). apply IH.
  intros a' b' Hb'. apply Hfg. by right.
Qed.

(** ** The flattening engine *)

Lemma flat_set k v d : flat d -> is_dict v = false -> flat (Dict.set k v d).
Proof.
  unfold flat. induction d as [|[k' v'] r IH]; simpl; intros Hd Hv.
  - by constructor.
  - apply Forall_cons in Hd as [Hv' Hr].
    destruct (decide (k = k')); constructor; auto.
Qed.

Lemma flat_update d other : flat d -> flat other -> flat (Dict.update d other).
Proof.
  revert d. induction other as [|kv other IH]; intros d Hd Ho; [done|].
  apply Forall_cons in Ho as [Hkv Ho]. rewrite dict_update_cons.
  apply IH; [|done]. by apply flat_set.
Qed.

Lemma flatten_step_leaf g rec acc kv :
  is_dict kv.2 = false -> flatten_step g rec acc kv = Dict.set kv.1 kv.2 acc.
Proof. unfold flatten_step. by destruct kv.2. Qed.

(** The result of [flatten_dict] is a single-level dictionary. *)
Lemma flatten_fuel_flat g n target : flat (flatten_fuel g n target).
Proof.
  revert target. induction n as [|n IH]; intros target; simpl.
  - constructor.
  - apply (fold_left_invariant flat); [constructor|].
    intros acc kv Hacc _. unfold flatten_step.
    destruct kv.2 eqn:E; try (by apply flat_set).
    by apply flat_update.
Qed.

Lemma flatten_fuel_wf g n target : Dict.wf (flatten_fuel g n target).
Proof.
  destruct n as [|n]; simpl; [constructor|].
  apply (fold_left_invariant Dict.wf); [constructor|].
  intros acc kv Hacc _. unfold flatten_step.
  destruct kv.2; try (by apply dict_set_wf).
  by apply dict_update_wf.
Qed.

(** A single-level dictionary is left as it is. *)
Lemma flatten_fuel_flat_id g n d :
  flat d -> Dict.wf d -> flatten_fuel g (S n) d = d.
Proof.
  intros Hflat Hwf. simpl.
  rewrite (fold_left_ext_in _ (fun acc kv => Dict.set kv.1 kv.2 acc)).
  - by apply (dict_rebuild []).
  - intros acc kv Hkv. apply flatten_step_leaf.
    unfold flat in Hflat. rewrite Forall_forall in Hflat. by apply Hflat.
Qed.

(** *** The fuel given by [flatten_dict] is enough *)

Lemma dict_size_eq d : dict_size d = S (sum_size d).
Proof. done. Qed.

Lemma sum_size_elem_of kv d : kv ∈ d -> value_size kv.2 <= sum_size d.
Proof.
  unfold sum_size. induction 1; simpl; lia.
Qed.

Lemma sum_size_set k v d : sum_size (Dict.set k v d) <= sum_size d + value_size v.
Proof.
  unfold sum_size. induction d as [|[k' v'] r IH]; simpl; [lia|].
  destruct (decide (k = k')); simpl; lia.
Qed.

Lemma sum_size_fold_set (pre : string -> string) (cd acc : dict) :
  sum_size (fold_left (fun acc' cv => Dict.set (pre cv.1) cv.2 acc') cd acc)
  <= sum_size acc + sum_size cd.
Proof.
  revert acc. induction cd as [|[k v] cd IH]; intros acc; simpl.
  - unfold sum_size at 3. simpl. lia.
  - etrans; [apply IH|].
    pose proof (sum_size_set (pre k) v acc).
    unfold sum_size at 4. simpl. fold (sum_size cd). lia.
Qed.

Lemma sum_size_value_with_parent_key d :
  sum_size (value_with_parent_key d) <= sum_size d.
Proof.
  unfold value_with_parent_key.
  enough (forall acc,
    sum_size
      (fold_left
         (fun acc pc =>
            match pc.2 with
            | VDict child_dict =>
                fold_left
                  (fun acc' cv => Dict.set (pc.1 +:+ "_" +:+ cv.1) cv.2 acc')
                  child_dict acc
            | child => Dict.set pc.1 child acc
            end) d acc)
    <= sum_size acc + sum_size d) as Hgen by apply (Hgen []).
  induction d as [|[k v] d IH]; intros acc; simpl.
  - unfold sum_size at 3. simpl. lia.
  - etrans; [apply IH|].
    unfold sum_size at 4. simpl. fold (sum_size d).
    destruct v as [| | | | |cd];
      try (match goal with
           | |- context [Dict.set k ?v acc] =>
               pose proof (sum_size_set k v acc); lia
           end).
    pose proof (sum_size_fold_set (fun s => k +:+ "_" +:+ s) cd acc) as Hcd.
    simpl in Hcd. change (value_size (VDict cd)) with (S (sum_size cd)). lia.
Qed.

Lemma sum_size_gpuv_with_parent_key key d :
  sum_size (gpuv_with_parent_key key d) <= sum_size d.
Proof.
  apply (sum_size_fold_set (fun s => key +:+ "_" +:+ s) d []).
Qed.

Lemma dict_size_flatten_arg g key d :
  dict_size (flatten_arg g key d) <= dict_size d.
Proof.
  rewrite !dict_size_eq. unfold flatten_arg.
  pose proof (sum_size_value_with_parent_key d).
  destruct (1 <? length d)%nat;
    destruct (g && bool_decide (key ∈ gpuv_parent_keys));
    try lia;
    match goal with
    | |- context [gpuv_with_parent_key key ?x] =>
        pose proof (sum_size_gpuv_with_parent_key key x); lia
    end.
Qed.

Lemma flatten_fuel_enough g n m target :
  dict_size target <= n -> dict_size target <= m ->
  flatten_fuel g n target = flatten_fuel g m target.
Proof.
  revert m target. induction n as [|n IH]; intros m target Hn Hm.
  { rewrite dict_size_eq in Hn. lia. }
  destruct m as [|m]; [rewrite dict_size_eq in Hm; lia|].
  simpl. apply fold_left_ext_in. intros acc kv Hkv.
  unfold flatten_step. destruct kv.2 as [| | | | |vd] eqn:E; try done.
  f_equal. apply sum_size_elem_of in Hkv. rewrite E in Hkv.
  pose proof (dict_size_flatten_arg g kv.1 vd).
  rewrite dict_size_eq in Hn, Hm. fold (dict_size vd) in Hkv.
  apply IH; lia.
Qed.

(** The equation of [flatten_dict], as the source has it: one pass over
    the entries, with a recursive call for each dictionary value. *)
Lemma flatten_dict_eq g target :
  flatten_dict g target
  = fold_left (flatten_step g (flatten_dict g)) target [].
Proof.
  unfold flatten_dict at 1. rewrite dict_size_eq. simpl.
  apply fold_left_ext_in. intros acc kv Hkv.
  unfold flatten_step. destruct kv.2 as [| | | | |vd] eqn:E; try done.
  f_equal. unfold flatten_dict.
  apply sum_size_elem_of in Hkv. rewrite E in Hkv.
  pose proof (dict_size_flatten_arg g kv.1 vd).
  fold (dict_size vd) in Hkv.
  apply flatten_fuel_enough; lia.
Qed.

Lemma flatten_dict_flat g target : flat (flatten_dict g target).
Proof. apply flatten_fuel_flat. Qed.

Lemma flatten_dict_wf g target : Dict.wf (flatten_dict g target).
Proof. apply flatten_fuel_wf. Qed.

(** C5. [flatten_dict] is idempotent, with and without the gpuvsmi
    prefixing: flattening a flattened record changes nothing. *)
Theorem flatten_dict_idempotent (gpuvsmi : bool) (r : dict) :
  flatten_dict gpuvsmi (flatten_dict gpuvsmi r) = flatten_dict gpuvsmi r.
Proof.
  unfold flatten_dict at 1. rewrite dict_size_eq.
  apply flatten_fuel_flat_id.
  - apply flatten_dict_flat.
  - apply flatten_dict_wf.
Qed.

(** *** Leaves *)

Lemma dict_leaves_cons k v d :
  dict_leaves ((k, v) :: d) = leaves v ++ dict_leaves d.
Proof. done. Qed.

Lemma leaves_not_dict v : is_dict v = false -> leaves v = [v].
Proof. by destruct v. Qed.

Lemma dict_leaves_flat d : flat d -> dict_leaves d = Dict.values d.
Proof.
  unfold flat. induction 1 as [|[k v] d Hv Hd IH]; [done|].
  rewrite dict_leaves_cons, IH, leaves_not_dict by done. done.
Qed.

(** An assignment keeps the leaves of the dictionary, but those of the
    value it overwrites. *)
Lemma dict_leaves_set k v d :
  dict_leaves (Dict.set k v d) ⊆+ leaves v ++ dict_leaves d.
Proof.
  induction d as [|[k' v'] r IH]; simpl.
  - done.
  - destruct (decide (k = k')).
    + rewrite !dict_leaves_cons. apply submseteq_skips_l, submseteq_inserts_l. done.
    + rewrite !dict_leaves_cons.
      rewrite (Permutation_app_swap_app (leaves v) (leaves v') (dict_leaves r)).
      by apply submseteq_skips_l.
Qed.

Lemma dict_leaves_fold_set (pre : string -> string) (cd acc : dict) :
  dict_leaves (fold_left (fun acc' cv => Dict.set (pre cv.1) cv.2 acc') cd acc)
  ⊆+ dict_leaves acc ++ dict_leaves cd.
Proof.
  revert acc. induction cd as [|[k v] cd IH]; intros acc; simpl.
  - by apply submseteq_inserts_r.
  - etrans; [apply IH|]. rewrite dict_leaves_cons.
    rewrite (Permutation_app_swap_app (dict_leaves acc) (leaves v) (dict_leaves cd)).
    rewrite (assoc (++)). apply submseteq_skips_r, dict_leaves_set.
Qed.

Lemma dict_leaves_update d other :
  dict_leaves (Dict.update d other) ⊆+ dict_leaves d ++ dict_leaves other.
Proof. apply (dict_leaves_fold_set (fun s => s)). Qed.

Lemma dict_leaves_value_with_parent_key d :
  dict_leaves (value_with_parent_key d) ⊆+ dict_leaves d.
Proof.
  unfold value_with_parent_key.
  enough (forall acc,
    dict_leaves
      (fold_left
         (fun acc pc =>
            match pc.2 with
            | VDict child_dict =>
                fold_left
                  (fun acc' cv => Dict.set (pc.1 +:+ "_" +:+ cv.1) cv.2 acc')
                  child_dict acc
            | child => Dict.set pc.1 child acc
            end) d acc)
    ⊆+ dict_leaves acc ++ dict_leaves d) as Hgen by apply (Hgen []).
  induction d as [|[k v] d IH]; intros acc; simpl.
  - by apply submseteq_inserts_r.
  - etrans; [apply IH|]. rewrite dict_leaves_cons.
    rewrite (assoc (++)). apply submseteq_skips_r.
    destruct v as [| | | | |cd];
      try (rewrite (comm (++) (dict_leaves acc)); apply dict_leaves_set).
    apply (dict_leaves_fold_set (fun s => k +:+ "_" +:+ s)).
Qed.

Lemma dict_leaves_gpuv_with_parent_key key d :
  dict_leaves (gpuv_with_parent_key key d) ⊆+ dict_leaves d.
Proof.
  apply (dict_leaves_fold_set (fun s => key +:+ "_" +:+ s) d []).
Qed.

Lemma dict_leaves_flatten_arg g key d :
  dict_leaves (flatten_arg g key d) ⊆+ dict_leaves d.
Proof.
  unfold flatten_arg.
  assert (dict_leaves (if (1 <? length d)%nat then value_with_parent_key d else d)
          ⊆+ dict_leaves d) as Hone.
  { destruct (1 <? length d)%nat; [apply dict_leaves_value_with_parent_key | done]. }
  destruct (g && bool_decide (key ∈ gpuv_parent_keys)); [|done].
  etrans; [apply dict_leaves_gpuv_with_parent_key | done].
Qed.

(** Flattening invents nothing and duplicates nothing: the values of the
    result are leaves of the argument, each taken at most once. *)
Lemma flatten_fuel_leaves g n target :
  dict_leaves (flatten_fuel g n target) ⊆+ dict_leaves target.
Proof.
  revert target. induction n as [|n IH]; intros target; simpl.
  { apply submseteq_nil_l. }
  enough (forall acc,
    dict_leaves (fold_left (flatten_step g (flatten_fuel g n)) target acc)
    ⊆+ dict_leaves acc ++ dict_leaves target) as Hgen by apply (Hgen []).
  induction target as [|[k v] target IHt]; intros acc; simpl.
  - by apply submseteq_inserts_r.
  - etrans; [apply IHt|]. rewrite dict_leaves_cons.
    rewrite (assoc (++)). apply submseteq_skips_r.
    unfold flatten_step. simpl.
    destruct v as [| | | | |vd];
      try (rewrite (comm (++) (dict_leaves acc)); apply dict_leaves_set).
    etrans; [apply dict_leaves_update|]. apply submseteq_skips_l.
    etrans; [apply IH|]. apply dict_leaves_flatten_arg.
Qed.

Lemma flatten_dict_values_leaves g r :
  Dict.values (flatten_dict g r) ⊆+ dict_leaves r.
Proof.
  rewrite <- dict_leaves_flat by apply flatten_dict_flat.
  apply flatten_fuel_leaves.
Qed.

(** Every value of the flattened record is a leaf of the record. *)
Lemma flatten_dict_sound g r v :
  v ∈ Dict.values (flatten_dict g r) -> v ∈ dict_leaves r.
Proof. intros Hv. eapply elem_of_submseteq; [done | apply flatten_dict_values_leaves]. Qed.

(** ** The store operations *)

Lemma record_mutate st v :
  record (with_heap (<[output st := v]> (heap st)) st) = v.
Proof. unfold record, deref. simpl. apply lookup_total_insert_eq. Qed.

Lemma record_rebind st v st' :
  rebind_output v st = (Ok tt, st') -> record st' = v.
Proof.
  unfold rebind_output. intros [= <-].
  unfold record, deref. simpl. apply lookup_total_insert_eq.
Qed.

Lemma output_setitem_dict k v st d :
  record st = VDict d ->
  output_setitem k v st
  = (Ok tt, with_heap (<[output st := VDict (Dict.set k v d)]> (heap st)) st).
Proof. unfold output_setitem. by intros ->. Qed.

Lemma output_setitem_Ok k v st st' :
  output_setitem k v st = (Ok tt, st') ->
  exists d, record st = VDict d
            /\ st' = with_heap (<[output st := VDict (Dict.set k v d)]> (heap st)) st.
Proof.
  unfold output_setitem, mutate_output, raise.
  destruct (record st) as [| | | | |d]; try done.
  intros [= <-]. by exists d.
Qed.

Lemma output_update_dict other st d :
  record st = VDict d ->
  output_update other st
  = (Ok tt, with_heap (<[output st := VDict (Dict.update d other)]> (heap st)) st).
Proof. unfold output_update. by intros ->. Qed.

Lemma output_update_Ok other st st' :
  output_update other st = (Ok tt, st') ->
  exists d, record st = VDict d
            /\ st' = with_heap (<[output st := VDict (Dict.update d other)]> (heap st)) st.
Proof.
  unfold output_update, mutate_output, raise.
  destruct (record st) as [| | | | |d]; try done.
  intros [= <-]. by exists d.
Qed.

Lemma bind_Ok {A B : Type} (m : M A) (k : A -> M B) st b st' :
  bind m k st = (Ok b, st') ->
  exists a st1, m st = (Ok a, st1) /\ k a st1 = (Ok b, st').
Proof.
  unfold bind. destruct (m st) as [[a|e] st1]; [|done].
  intros Hk. by exists a, st1.
Qed.

(** What a successful [store_csv] leaves in the record. *)
Lemma store_csv_Ok gpu_id argument data st st' :
  store_csv gpu_id argument data st = (Ok tt, st') ->
  exists d merged,
    record st = VDict d /\ record st' = VDict merged
    /\ output st' = output st
    /\ (merged = Dict.set argument data (Dict.set "gpu" (VInt gpu_id) d)
          /\ argument <> "values" /\ is_dict data = false
        \/ exists dd,
             data = VDict dd
             /\ merged
                = Dict.update (Dict.set "gpu" (VInt gpu_id) d)
                    (flatten_dict (is_gpuvsmi_compatibility st) dd)).
Proof.
  unfold store_csv. intros Hstore.
  apply bind_Ok in Hstore as ([] & st1 & Hgpu & Hrest).
  apply output_setitem_Ok in Hgpu as (d & Hd & ->).
  exists d.
  destruct (bool_decide (argument = "values") || is_dict data) eqn:Hcond.
  - apply bind_Ok in Hrest as (flat_dict & st2 & Hflat & Hupd).
    unfold flatten_data in Hflat. destruct data as [| | | | |dd]; try done.
    unfold ret in Hflat. injection Hflat as <- <-.
    apply output_update_Ok in Hupd as (d1 & Hd1 & ->).
    rewrite record_mutate in Hd1. injection Hd1 as <-.
    eexists. split_and!; [done | apply record_mutate | done |].
    right. by exists dd.
  - apply orb_false_iff in Hcond as [Harg Hdata].
    apply bool_decide_eq_false in Harg.
    apply output_setitem_Ok in Hrest as (d1 & Hd1 & ->).
    rewrite record_mutate in Hd1. injection Hd1 as <-.
    eexists. split_and!; [done | apply record_mutate | done |].
    by left.
Qed.

(** *** The loop of the gpuvsmi compatibility (lines 272-286) *)

Lemma dict_set_set k v1 v2 d : Dict.set k v2 (Dict.set k v1 d) = Dict.set k v2 d.
Proof.
  induction d as [|[k' v'] r IH]; simpl.
  - by rewrite decide_True.
  - destruct (decide (k = k')) as [->|Hne]; simpl.
    + by rewrite decide_True.
    + by rewrite decide_False, IH.
Qed.

Lemma dict_remove_set k v d : k ∉ Dict.keys d -> Dict.remove k (Dict.set k v d) = d.
Proof.
  induction d as [|[k' v'] r IH]; simpl; intros Hk.
  - by rewrite decide_True.
  - apply not_elem_of_cons in Hk as [Hne Hk].
    rewrite decide_False by done. simpl.
    by rewrite decide_False, IH.
Qed.

Lemma dict_Forall_set (P : value -> Prop) k v d :
  Forall (fun kv => P kv.2) d -> P v -> Forall (fun kv => P kv.2) (Dict.set k v d).
Proof.
  induction d as [|[k' v'] r IH]; simpl; intros Hd Hv.
  - by constructor.
  - apply Forall_cons in Hd as [Hv' Hr].
    destruct (decide (k = k')); constructor; auto.
Qed.

Lemma dict_Forall_update (P : value -> Prop) d other :
  Forall (fun kv => P kv.2) d -> Forall (fun kv => P kv.2) other ->
  Forall (fun kv => P kv.2) (Dict.update d other).
Proof.
  revert d. induction other as [|kv other IH]; intros d Hd Ho; [done|].
  apply Forall_cons in Ho as [Hkv Ho]. rewrite dict_update_cons.
  apply IH; [|done]. by apply dict_Forall_set.
Qed.

(** The value of a key after an update that writes it with one value
    only. *)
Lemma dict_get_update_unique k v d other :
  (k, v) ∈ other -> (forall v', (k, v') ∈ other -> v' = v) ->
  Dict.get k (Dict.update d other) = Some v.
Proof.
  revert d. induction other as [|[k0 v0] other IH]; intros d Hin Huniq.
  - by apply elem_of_nil in Hin.
  - rewrite dict_update_cons. simpl.
    destruct (decide (k ∈ Dict.keys other)) as [Hk|Hk].
    + apply list_elem_of_fmap in Hk as ([k1 v1] & -> & Hkv1). simpl in *.
      assert (v1 = v) as -> by (apply Huniq; by right).
      apply IH; [done|]. intros v' Hv'. apply Huniq. by right.
    + rewrite dict_get_update_ne by done.
      apply elem_of_cons in Hin as [[= <- <-]|Hin].
      * apply dict_get_set_eq.
      * exfalso. apply Hk. apply list_elem_of_fmap. by exists (k, v).
Qed.

Lemma gpuv_key_not_renamed k : gpuv_key k ∉ ["bdf"; "uuid"].
Proof.
  unfold gpuv_key. case_bool_decide as Hk; [|done].
  repeat (apply elem_of_cons in Hk as [->|Hk]);
    [| |by apply elem_of_nil in Hk];
    intros Hin;
    repeat (apply elem_of_cons in Hin as [Heq|Hin]; [discriminate|]);
    by apply elem_of_nil in Hin.
Qed.

Lemma gpuv_step_Ok acc kv :
  (forall k, k ∈ Dict.keys acc -> k ∉ ["bdf"; "uuid"]) ->
  gpuv_step (Ok acc) kv = Ok (Dict.set (gpuv_key kv.1) (gpuv_value kv.2) acc).
Proof.
  intros Hacc. destruct kv as [k v]. unfold gpuv_step, gpuv_key, gpuv_value. simpl.
  assert ((if is_status_string v
           then Dict.set k (VStr "N/A") (Dict.set k v acc)
           else Dict.set k v acc)
          = Dict.set k (if is_status_string v then VStr "N/A" else v) acc) as ->.
  { destruct (is_status_string v); [apply dict_set_set | done]. }
  case_bool_decide as Hk; [|done].
  unfold Dict.pop. rewrite dict_get_set_eq.
  rewrite dict_remove_set; [done|].
  intros Hin. by apply (Hacc k Hin).
Qed.

(** The loop never fails, and amounts to writing every entry under its
    new key with its new value. *)
Lemma gpuv_postprocess_eq d :
  gpuv_postprocess d = Ok (Dict.update [] (gpuv_entry <$> d)).
Proof.
  unfold gpuv_postprocess.
  enough (forall acc,
    (forall k, k ∈ Dict.keys acc -> k ∉ ["bdf"; "uuid"]) ->
    fold_left gpuv_step d (Ok acc) = Ok (Dict.update acc (gpuv_entry <$> d)))
    as Hgen.
  { apply Hgen. intros k Hk. by apply elem_of_nil in Hk. }
  induction d as [|kv d IH]; intros acc Hacc; [done|].
  cbn [fold_left]. rewrite gpuv_step_Ok by done.
  rewrite fmap_cons, dict_update_cons. apply IH.
  intros k [->|Hk]%dict_elem_of_keys_set; [apply gpuv_key_not_renamed | auto].
Qed.

Lemma gpuv_value_not_status v : is_status_string (gpuv_value v) = false.
Proof.
  unfold gpuv_value. destruct (is_status_string v) eqn:E; [done | exact E].
Qed.

Lemma gpuv_postprocess_masked d :
  Forall (fun kv => is_status_string kv.2 = false)
    (Dict.update [] (gpuv_entry <$> d)).
Proof.
  apply (dict_Forall_update (fun v => is_status_string v = false)); [constructor|].
  apply Forall_fmap, Forall_forall. intros kv _. apply gpuv_value_not_status.
Qed.

Lemma gpuv_postprocess_wf d : Dict.wf (Dict.update [] (gpuv_entry <$> d)).
Proof. apply dict_update_wf. constructor. Qed.

(** The entry [(k, v)] of a record ends under [gpuv_key k] with the value
    [gpuv_value v], unless another key of the record is renamed to the
    same key. *)
Lemma gpuv_postprocess_get k v d :
  Dict.wf d -> Dict.get k d = Some v ->
  (forall k', k' ∈ Dict.keys d -> gpuv_key k' = gpuv_key k -> k' = k) ->
  Dict.get (gpuv_key k) (Dict.update [] (gpuv_entry <$> d))
  = Some (gpuv_value v).
Proof.
  intros Hwf Hget Hcoll. apply dict_get_update_unique.
  - apply list_elem_of_fmap. exists (k, v). split; [done|].
    by apply dict_get_Some_elem_of.
  - intros v' ([k1 v1] & [= Hk ->] & Hin)%list_elem_of_fmap.
    assert (k1 = k) as ->.
    { apply Hcoll; [|done]. apply list_elem_of_fmap. by exists (k1, v1). }
    apply (dict_elem_of_get _ _ _ Hwf) in Hin. congruence.
Qed.

(** *** Dispatch on the compatibility and on the format *)

Ltac unfold_compatibility :=
  unfold store_output, bind, get_self, gpu_id_of,
    is_amdsmi_compatibility, is_rocmsmi_compatibility, is_gpuvsmi_compatibility.

Ltac unfold_format :=
  unfold is_json_format, is_human_readable_format, is_csv_format.

Lemma store_output_amdsmi st h argument data :
  compatibility st = "amdsmi" ->
  store_output h argument data st
  = _store_output_amdsmi (gpu_id_of st h) argument data st.
Proof. intros Hc. unfold_compatibility. by rewrite Hc. Qed.

Lemma store_output_rocmsmi st h argument data :
  compatibility st = "rocmsmi" ->
  store_output h argument data st
  = _store_output_rocmsmi (gpu_id_of st h) argument data st.
Proof. intros Hc. unfold_compatibility. by rewrite Hc. Qed.

Lemma store_output_gpuvsmi st h argument data :
  compatibility st = "gpuvsmi" ->
  store_output h argument data st
  = _store_output_gpuvsmi (gpu_id_of st h) argument data st.
Proof. intros Hc. unfold_compatibility. by rewrite Hc. Qed.

Lemma amdsmi_csv_store_csv gpu_id argument data st :
  format st = "csv" ->
  _store_output_amdsmi gpu_id argument data st
  = store_csv gpu_id argument data st.
Proof.
  intros Hf. unfold _store_output_amdsmi, bind, get_self. unfold_format.
  by rewrite Hf.
Qed.

(** The gpuvsmi store of the csv format: the merge of [store_csv], then
    the loop over the whole record. *)
Lemma gpuvsmi_csv_Ok gpu_id argument data st st' :
  format st = "csv" ->
  _store_output_gpuvsmi gpu_id argument data st = (Ok tt, st') ->
  exists st1 merged,
    store_csv gpu_id argument data st = (Ok tt, st1)
    /\ record st1 = VDict merged
    /\ record st' = VDict (Dict.update [] (gpuv_entry <$> merged)).
Proof.
  intros Hf. unfold _store_output_gpuvsmi, bind, get_self. unfold_format.
  rewrite Hf. simpl.
  destruct (store_csv gpu_id argument data st) as [[[]|e] st1]; [|done].
  destruct (record st1) as [| | | | |merged] eqn:Hrec; try done.
  rewrite gpuv_postprocess_eq. intros Hbind%record_rebind.
  by exists st1, merged.
Qed.

(** C9. Under the rocmsmi compatibility a store in any of the three
    supported formats returns without error and leaves the whole logger
    (current record, multi-device list, watch history) as it was. *)
Theorem rocmsmi_store_is_noop st h argument data :
  compatibility st = "rocmsmi" ->
  format st ∈ ["json"; "csv"; "human_readable"] ->
  store_output h argument data st = (Ok tt, st).
Proof.
  intros Hc Hf. rewrite store_output_rocmsmi by done.
  unfold _store_output_rocmsmi, bind, get_self. unfold_format.
  repeat (apply elem_of_cons in Hf as [->|Hf]); try done.
  by apply elem_of_nil in Hf.
Qed.

Lemma rocmsmi_store_is_noop_witness :
  store_output 3%Z "values" (VDict [("temperature", VInt 40)])
    (init "rocmsmi" "csv" Stdout sample_helpers)
  = (Ok tt, init "rocmsmi" "csv" Stdout sample_helpers).
Proof.
  apply rocmsmi_store_is_noop; [reflexivity|].
  apply list_elem_of_further, list_elem_of_here.
Defined.

(** C8. With a format that is none of json, csv and human_readable, a
    store under the amdsmi or the gpuvsmi compatibility fails and leaves
    the logger unchanged: nothing is merged and no format is assumed.
    The exception is the [TypeError] of calling the module
    [amdsmi_cli_exceptions], not an exception carrying the message. *)
Theorem store_output_unsupported_format st h argument data :
  compatibility st ∈ ["amdsmi"; "gpuvsmi"] ->
  format st ∉ ["json"; "csv"; "human_readable"] ->
  store_output h argument data st = (Raise TypeError, st).
Proof.
  intros Hc Hf.
  assert (is_json_format st = false /\ is_csv_format st = false
          /\ is_human_readable_format st = false) as (Hj & Hcsv & Hh).
  { unfold_format. split_and!; apply bool_decide_eq_false_2; intros Heq;
      apply Hf; rewrite Heq; repeat constructor. }
  repeat (apply elem_of_cons in Hc as [Hc|Hc]).
  - rewrite store_output_amdsmi by done.
    unfold _store_output_amdsmi, bind, get_self. by rewrite Hj, Hcsv, Hh.
  - rewrite store_output_gpuvsmi by done.
    unfold _store_output_gpuvsmi, bind, get_self. by rewrite Hj, Hcsv, Hh.
  - by apply elem_of_nil in Hc.
Qed.

Lemma store_output_unsupported_format_witness :
  store_output 0%Z "values" (VDict [("temperature", VInt 40)])
    (init "amdsmi" "xml" Stdout sample_helpers)
  = (Raise TypeError, init "amdsmi" "xml" Stdout sample_helpers).
Proof.
  apply store_output_unsupported_format.
  - apply list_elem_of_here.
  - intros Hin.
    repeat (apply elem_of_cons in Hin as [Heq|Hin]; [discriminate|]).
    by apply elem_of_nil in Hin.
Defined.

(** *** The tabular store of the amdsmi compatibility *)

(** C3, as the specification states it, fails: a scalar stored under a key
    other than ["values"] is not flattened.  The code stores it as it is,
    where the store that always flattens raises. *)
Lemma amdsmi_csv_store_not_always_flatten :
  (store_output 0%Z "temperature" (VInt 40)
     (init "amdsmi" "csv" Stdout sample_helpers)).1 = Ok tt
  /\ record (store_output 0%Z "temperature" (VInt 40)
               (init "amdsmi" "csv" Stdout sample_helpers)).2
     = VDict [("gpu", VInt 0); ("temperature", VInt 40)]
  /\ (store_csv_always_flatten 0%Z (VInt 40)
        (init "amdsmi" "csv" Stdout sample_helpers)).1
     = Raise AttributeError.
Proof. by vm_compute. Qed.

(** C3, amended. Under the amdsmi compatibility with the csv format, the
    store sets ["gpu"], then passes the data through [flatten_dict] and
    merges the result when the key is ["values"] or the data is a
    dictionary; otherwise it sets [record[key] = data], unflattened. *)
Theorem amdsmi_csv_store st h argument data rec :
  compatibility st = "amdsmi" -> format st = "csv" ->
  record st = VDict rec ->
  (argument = "values" \/ is_dict data = true ->
   store_output h argument data st
   = store_csv_always_flatten (gpu_id_of st h) data st)
  /\ (forall d, data = VDict d ->
      exists st',
        store_output h argument data st = (Ok tt, st')
        /\ record st'
           = VDict (Dict.update (Dict.set "gpu" (VInt (gpu_id_of st h)) rec)
                      (flatten_dict false d)))
  /\ (argument <> "values" -> is_dict data = false ->
      exists st',
        store_output h argument data st = (Ok tt, st')
        /\ record st'
           = VDict (Dict.set argument data
                      (Dict.set "gpu" (VInt (gpu_id_of st h)) rec))).
Proof.
  intros Hc Hf Hrec.
  rewrite store_output_amdsmi, amdsmi_csv_store_csv by done.
  unfold store_csv, store_csv_always_flatten.
  split_and!.
  - intros Hcond.
    assert (bool_decide (argument = "values") || is_dict data = true) as ->; [|done].
    destruct Hcond as [->| ->]; [done | apply orb_true_r].
  - intros d ->. unfold bind at 1. rewrite (output_setitem_dict _ _ _ _ Hrec).
    rewrite orb_true_r. unfold bind, flatten_data, ret.
    unfold is_gpuvsmi_compatibility. simpl. rewrite Hc. simpl.
    erewrite output_update_dict by apply record_mutate.
    eexists. split; [done|]. apply record_mutate.
  - intros Harg Hdata. unfold bind at 1.
    rewrite (output_setitem_dict _ _ _ _ Hrec).
    rewrite bool_decide_eq_false_2, Hdata by done. simpl.
    erewrite output_setitem_dict by apply record_mutate.
    eexists. split; [done|]. apply record_mutate.
Qed.

Lemma amdsmi_csv_store_witness :
  exists st',
    store_output 0%Z "temperature" (VInt 40)
      (init "amdsmi" "csv" Stdout sample_helpers) = (Ok tt, st')
    /\ record st'
       = VDict (Dict.set "temperature" (VInt 40)
                  (Dict.set "gpu" (VInt 0) [])).
Proof.
  apply (amdsmi_csv_store (init "amdsmi" "csv" Stdout sample_helpers)
           0%Z "temperature" (VInt 40) []);
    [reflexivity | reflexivity | reflexivity | discriminate | reflexivity].
Defined.

(** *** The ["gpu"] key of the record *)

Lemma gpuv_key_gpu k : gpuv_key k = "gpu" -> k = "gpu".
Proof.
  unfold gpuv_key. case_bool_decide as Hk; [|done].
  intros Heq. exfalso.
  repeat (apply elem_of_cons in Hk as [->|Hk]); try discriminate.
Qed.

(** The record that [store_csv] leaves binds ["gpu"]; it binds it to the
    gpu id unless the stored key or the flattened data writes ["gpu"]
    itself. *)
Lemma store_csv_gpu gpu_id argument data st st' :
  store_csv gpu_id argument data st = (Ok tt, st') ->
  exists d merged,
    record st = VDict d /\ record st' = VDict merged
    /\ (Dict.wf d -> Dict.wf merged)
    /\ "gpu" ∈ Dict.keys merged
    /\ (argument <> "gpu" ->
        (forall dd, data = VDict dd ->
           "gpu" ∉ Dict.keys (flatten_dict (is_gpuvsmi_compatibility st) dd)) ->
        Dict.get "gpu" merged = Some (VInt gpu_id)).
Proof.
  intros (d & merged & Hd & Hm & _ & Hcases)%store_csv_Ok.
  exists d, merged. split_and!; [done | done | | |].
  - intros Hwf.
    destruct Hcases as [(-> & _ & _)|(dd & -> & ->)];
      auto using dict_set_wf, dict_update_wf.
  - destruct Hcases as [(-> & _ & _)|(dd & -> & ->)].
    + apply dict_elem_of_keys_set. right. apply dict_elem_of_keys_set. by left.
    + apply dict_elem_of_keys_update. left. apply dict_elem_of_keys_set. by left.
  - intros Harg Hdata.
    destruct Hcases as [(-> & _ & _)|(dd & -> & ->)].
    + rewrite dict_get_set_ne by done. apply dict_get_set_eq.
    + rewrite dict_get_update_ne by (by apply Hdata). apply dict_get_set_eq.
Qed.

(** The record that a successful store of the amdsmi or of the gpuvsmi
    compatibility leaves: ["gpu"] is set, the entries of the call are
    merged, and under gpuvsmi with the csv format the loop rewrites the
    result. *)
Lemma store_output_merged st h argument data st' :
  compatibility st ∈ ["amdsmi"; "gpuvsmi"] ->
  store_output h argument data st = (Ok tt, st') ->
  exists d,
    record st = VDict d
    /\ record st'
       = VDict
           (if is_gpuvsmi_compatibility st && is_csv_format st
            then Dict.update []
                   (gpuv_entry
                      <$> Dict.update (Dict.set "gpu" (VInt (gpu_id_of st h)) d)
                            (stored_entries st argument data))
            else Dict.update (Dict.set "gpu" (VInt (gpu_id_of st h)) d)
                   (stored_entries st argument data)).
Proof.
  intros Hc Hstore.
  repeat (apply elem_of_cons in Hc as [Hc|Hc]); [| |by apply elem_of_nil in Hc].
  - (* amdsmi *)
    rewrite store_output_amdsmi in Hstore by done.
    unfold stored_entries, is_gpuvsmi_compatibility, is_amdsmi_compatibility.
    rewrite Hc. cbn [bool_decide decide_rel andb].
    rewrite bool_decide_eq_false_2 by discriminate.
    rewrite bool_decide_eq_true_2 by done. cbn [andb].
    destruct (decide (format st = "csv")) as [Hf|Hf].
    + rewrite amdsmi_csv_store_csv in Hstore by done.
      unfold is_csv_format. rewrite bool_decide_eq_true_2 by done.
      apply store_csv_Ok in Hstore as (d & merged & Hd & Hm & _ & Hcases).
      exists d. split; [done|]. rewrite Hm. f_equal.
      destruct Hcases as [(-> & _ & Hdata)|(dd & -> & ->)].
      * by destruct data.
      * unfold is_gpuvsmi_compatibility. rewrite Hc.
        by rewrite bool_decide_eq_false_2 by discriminate.
    + unfold _store_output_amdsmi in Hstore.
      apply bind_Ok in Hstore as (self & st0 & [= <- <-] & Hstore).
      unfold is_csv_format in *.
      rewrite (bool_decide_eq_false_2 _ Hf) in Hstore.
      rewrite (bool_decide_eq_false_2 _ Hf).
      destruct (is_json_format st || is_human_readable_format st); [|done].
      apply bind_Ok in Hstore as ([] & st1 & Hgpu & Hrest).
      apply output_setitem_Ok in Hgpu as (d & Hd & ->).
      exists d. split; [done|].
      destruct data as [| | | | |dd];
        try (apply output_setitem_Ok in Hrest as (d1 & Hd1 & ->);
             rewrite record_mutate in Hd1; injection Hd1 as <-;
             by rewrite record_mutate).
      case_bool_decide.
      * apply output_update_Ok in Hrest as (d1 & Hd1 & ->).
        rewrite record_mutate in Hd1. injection Hd1 as <-.
        by rewrite record_mutate.
      * apply output_setitem_Ok in Hrest as (d1 & Hd1 & ->).
        rewrite record_mutate in Hd1. injection Hd1 as <-.
        by rewrite record_mutate.
  - (* gpuvsmi *)
    rewrite store_output_gpuvsmi in Hstore by done.
    unfold stored_entries, is_amdsmi_compatibility.
    rewrite (bool_decide_eq_false_2 (compatibility st = "amdsmi"))
      by (rewrite Hc; discriminate).
    assert (is_gpuvsmi_compatibility st = true) as Hg
      by (unfold is_gpuvsmi_compatibility; by rewrite bool_decide_eq_true_2).
    rewrite Hg. cbn [andb].
    destruct (decide (format st = "csv")) as [Hf|Hf].
    + unfold is_csv_format. rewrite bool_decide_eq_true_2 by done.
      apply gpuvsmi_csv_Ok in Hstore as (st1 & merged & Hcsv & Hm & Hrec); [|done].
      apply store_csv_Ok in Hcsv as (d & merged' & Hd & Hm' & _ & Hcases).
      rewrite Hm in Hm'. injection Hm' as <-.
      exists d. split; [done|]. rewrite Hrec. do 3 f_equal.
      destruct Hcases as [(-> & _ & Hdata)|(dd & -> & ->)].
      * by destruct data.
      * by rewrite Hg.
    + unfold _store_output_gpuvsmi in Hstore.
      apply bind_Ok in Hstore as (self & st0 & [= <- <-] & Hstore).
      unfold is_csv_format in *.
      rewrite (bool_decide_eq_false_2 _ Hf) in Hstore.
      rewrite (bool_decide_eq_false_2 _ Hf).
      destruct (is_json_format st || is_human_readable_format st); [|done].
      apply bind_Ok in Hstore as ([] & st1 & Hgpu & Hset).
      apply output_setitem_Ok in Hgpu as (d & Hd & ->).
      apply output_setitem_Ok in Hset as (d1 & Hd1 & ->).
      rewrite record_mutate in Hd1. injection Hd1 as <-.
      exists d. split; [done|]. rewrite record_mutate. by destruct data.
Qed.

(** C2, as the specification states it, fails.  Under the rocmsmi
    compatibility the store succeeds and the record has no ["gpu"] key.
    Under the amdsmi compatibility the store sets ["gpu"] first and then
    merges the data, which can write ["gpu"] again: after the store of
    [{gpu: 5}] under ["values"] for the device [3] the key is bound to
    [5]. *)
Lemma store_output_gpu_not_device_id :
  ((store_output 0%Z "values" (VDict [("temperature", VInt 40)])
      (init "rocmsmi" "json" Stdout sample_helpers)).1 = Ok tt
   /\ record (store_output 0%Z "values" (VDict [("temperature", VInt 40)])
                (init "rocmsmi" "json" Stdout sample_helpers)).2
      = VDict []
   /\ Dict.get "gpu" [] = None)
  /\ ((store_output 3%Z "values" (VDict [("gpu", VInt 5)])
         (init "amdsmi" "json" Stdout sample_helpers)).1 = Ok tt
      /\ gpu_id_of (init "amdsmi" "json" Stdout sample_helpers) 3%Z = 3%Z
      /\ record (store_output 3%Z "values" (VDict [("gpu", VInt 5)])
                   (init "amdsmi" "json" Stdout sample_helpers)).2
         = VDict [("gpu", VInt 5)]).
Proof. by vm_compute. Qed.

(** C2, amended. Under the amdsmi or the gpuvsmi compatibility, after a
    successful store the record is a dictionary that contains the key
    ["gpu"].  The key is bound to the integer gpu id resolved from the
    device handle unless ["gpu"] is among the entries that the call itself
    writes ([stored_entries]: the entries of the data, flattened in the
    csv format, or the stored key); it is then bound to the value written,
    which the loop of the gpuvsmi compatibility masks in the csv format.
    Under the rocmsmi compatibility a successful store changes nothing,
    so it adds no ["gpu"] key. *)
Theorem store_output_gpu_key st h argument data st' :
  record_wf st ->
  store_output h argument data st = (Ok tt, st') ->
  (compatibility st ∈ ["amdsmi"; "gpuvsmi"] ->
   exists rec,
     record st' = VDict rec
     /\ "gpu" ∈ Dict.keys rec
     /\ ("gpu" ∉ Dict.keys (stored_entries st argument data) ->
         Dict.get "gpu" rec = Some (VInt (gpu_id_of st h)))
     /\ (forall v,
           Dict.wf (stored_entries st argument data) ->
           Dict.get "gpu" (stored_entries st argument data) = Some v ->
           Dict.get "gpu" rec
           = Some (if is_gpuvsmi_compatibility st && is_csv_format st
                   then gpuv_value v else v)))
  /\ (compatibility st = "rocmsmi" -> st' = st).
Proof.
  intros Hwf Hstore. split; last first.
  { intros Hc. rewrite store_output_rocmsmi in Hstore by done.
    unfold _store_output_rocmsmi, bind, get_self in Hstore.
    destruct (is_json_format st); [by injection Hstore|].
    destruct (is_csv_format st); [by injection Hstore|].
    destruct (is_human_readable_format st); [by injection Hstore | done]. }
  intros Hc.
  apply store_output_merged in Hstore as (d & Hd & Hrec); [|done].
  set (merged := Dict.update (Dict.set "gpu" (VInt (gpu_id_of st h)) d)
                   (stored_entries st argument data)) in *.
  assert (Dict.wf merged) as Hwfm.
  { apply dict_update_wf, dict_set_wf. by apply Hwf. }
  assert ("gpu" ∈ Dict.keys merged) as Hin.
  { apply dict_elem_of_keys_update. left. apply dict_elem_of_keys_set. by left. }
  assert ("gpu" ∉ Dict.keys (stored_entries st argument data) ->
          Dict.get "gpu" merged = Some (VInt (gpu_id_of st h))) as Hid.
  { intros Hnot. unfold merged. rewrite dict_get_update_ne by done.
    apply dict_get_set_eq. }
  assert (forall v,
            Dict.wf (stored_entries st argument data) ->
            Dict.get "gpu" (stored_entries st argument data) = Some v ->
            Dict.get "gpu" merged = Some v) as Hwritten.
  { intros v Hwfe Hget. apply dict_get_update_unique.
    - by apply dict_get_Some_elem_of.
    - intros v' Hv'. apply (dict_elem_of_get _ _ _ Hwfe) in Hv'. congruence. }
  assert (forall v, Dict.get "gpu" merged = Some v ->
            Dict.get "gpu" (Dict.update [] (gpuv_entry <$> merged))
            = Some (gpuv_value v)) as Hloop.
  { intros v Hget.
    apply (gpuv_postprocess_get "gpu" v merged); [done | done |].
    intros k' _ Hk'. by apply gpuv_key_gpu. }
  eexists. split; [exact Hrec|].
  destruct (is_gpuvsmi_compatibility st && is_csv_format st).
  - split_and!.
    + apply dict_elem_of_keys_update. right.
      apply list_elem_of_fmap in Hin as ([k v] & Hk & Hin). simpl in Hk. subst k.
      apply list_elem_of_fmap. exists (gpuv_entry ("gpu", v)). split; [done|].
      apply list_elem_of_fmap. by exists ("gpu", v).
    + intros Hnot. by rewrite (Hloop _ (Hid Hnot)).
    + intros v Hwfe Hget. by apply Hloop, Hwritten.
  - split_and!; [done | done | done].
Qed.

Lemma store_output_gpu_key_witness :
  (exists rec,
     record (store_output 2%Z "values" (VDict [("temperature", VInt 40)])
               (init "gpuvsmi" "csv" Stdout sample_helpers)).2 = VDict rec
     /\ "gpu" ∈ Dict.keys rec
     /\ Dict.get "gpu" rec = Some (VInt 2))
  /\ (exists rec,
        record (store_output 3%Z "values" (VDict [("gpu", VInt 5)])
                  (init "amdsmi" "json" Stdout sample_helpers)).2 = VDict rec
        /\ Dict.get "gpu" rec = Some (VInt 5))
  /\ (store_output 0%Z "values" (VDict [("temperature", VInt 40)])
        (init "rocmsmi" "json" Stdout sample_helpers)).2
     = init "rocmsmi" "json" Stdout sample_helpers.
Proof.
  split_and!.
  - destruct (store_output_gpu_key
                (init "gpuvsmi" "csv" Stdout sample_helpers)
                2%Z "values" (VDict [("temperature", VInt 40)])
                (store_output 2%Z "values" (VDict [("temperature", VInt 40)])
                   (init "gpuvsmi" "csv" Stdout sample_helpers)).2)
      as [Hgpu _].
    + intros d [= <-]. constructor.
    + reflexivity.
    + destruct Hgpu as (rec & Hrec & Hin & Hget & _).
      { apply list_elem_of_further, list_elem_of_here. }
      exists rec. split_and!; [done | done |].
      apply Hget. apply (bool_decide_unpack _). by vm_compute.
  - destruct (store_output_gpu_key
                (init "amdsmi" "json" Stdout sample_helpers)
                3%Z "values" (VDict [("gpu", VInt 5)])
                (store_output 3%Z "values" (VDict [("gpu", VInt 5)])
                   (init "amdsmi" "json" Stdout sample_helpers)).2)
      as [Hgpu _].
    + intros d [= <-]. constructor.
    + reflexivity.
    + destruct Hgpu as (rec & Hrec & _ & _ & Hget).
      { apply list_elem_of_here. }
      exists rec. split; [done|].
      apply (Hget (VInt 5)); [apply NoDup_singleton | reflexivity].
  - destruct (store_output_gpu_key
                (init "rocmsmi" "json" Stdout sample_helpers)
                0%Z "values" (VDict [("temperature", VInt 40)])
                (store_output 0%Z "values" (VDict [("temperature", VInt 40)])
                   (init "rocmsmi" "json" Stdout sample_helpers)).2)
      as [_ Hnoop].
    + intros d [= <-]. constructor.
    + reflexivity.
    + by apply Hnoop.
Defined.

(** *** Status masking under the gpuvsmi compatibility *)

(** C1, as the specification states it, fails in the json format (and in
    the human_readable one): the store has no pass over the record, and
    the status string stays. *)
Lemma gpuvsmi_json_status_kept :
  (store_output 0%Z "status" (VStr "AMDSMI_STATUS_NOT_SUPPORTED")
     (init "gpuvsmi" "json" Stdout sample_helpers)).1 = Ok tt
  /\ record (store_output 0%Z "status" (VStr "AMDSMI_STATUS_NOT_SUPPORTED")
               (init "gpuvsmi" "json" Stdout sample_helpers)).2
     = VDict [("gpu", VInt 0); ("status", VStr "AMDSMI_STATUS_NOT_SUPPORTED")]
  /\ is_substring "AMDSMI_STATUS" "AMDSMI_STATUS_NOT_SUPPORTED" = true.
Proof. by vm_compute. Qed.

(** C1, amended. Under the gpuvsmi compatibility the status strings are
    masked in the csv format only.  With the csv format a successful
    store merges the data ([store_csv]) and then rewrites the whole
    record: no string value of the resulting record contains
    ["AMDSMI_STATUS"], and a string value of the merged record that
    contains it is replaced by exactly ["N/A"], under the key [gpuv_key k]
    of its key [k], provided no other key of the merged record is renamed
    to that key.  With the json and the human_readable format there is no
    pass over the record: the store sets ["gpu"] and binds the key to the
    data as it is, whatever the data, and the other entries of the record
    stay as they are. *)
Theorem gpuvsmi_status_masking st h argument data :
  compatibility st = "gpuvsmi" ->
  record_wf st ->
  (format st = "csv" ->
   forall st',
     store_output h argument data st = (Ok tt, st') ->
     exists st1 merged rec,
       store_csv (gpu_id_of st h) argument data st = (Ok tt, st1)
       /\ record st1 = VDict merged
       /\ record st' = VDict rec
       /\ Forall (fun kv => is_status_string kv.2 = false) rec
       /\ forall k s,
            Dict.get k merged = Some (VStr s) ->
            is_substring "AMDSMI_STATUS" s = true ->
            (forall k', k' ∈ Dict.keys merged -> gpuv_key k' = gpuv_key k -> k' = k) ->
            Dict.get (gpuv_key k) rec = Some (VStr "N/A"))
  /\ (format st ∈ ["json"; "human_readable"] ->
      forall d,
        record st = VDict d ->
        exists st' rec,
          store_output h argument data st = (Ok tt, st')
          /\ record st' = VDict rec
          /\ rec = Dict.set argument data (Dict.set "gpu" (VInt (gpu_id_of st h)) d)
          /\ Dict.get argument rec = Some data).
Proof.
  intros Hc Hwf. split.
  - intros Hf st' Hstore.
    rewrite store_output_gpuvsmi in Hstore by done.
    apply gpuvsmi_csv_Ok in Hstore as (st1 & merged & Hcsv & Hm & Hrec); [|done].
    exists st1, merged. eexists. split_and!; [done | done | done | |].
    + apply gpuv_postprocess_masked.
    + intros k s Hget Hs Hcoll.
      pose proof Hcsv as (d & merged' & Hd & Hm' & Hwfm & _)%store_csv_gpu.
      rewrite Hm in Hm'. injection Hm' as <-.
      rewrite (gpuv_postprocess_get k (VStr s)); [| |done|done].
      * unfold gpuv_value. simpl. by rewrite Hs.
      * apply Hwfm. by apply Hwf.
  - intros Hf d Hd. rewrite store_output_gpuvsmi by done.
    unfold _store_output_gpuvsmi, bind at 1, get_self.
    assert (is_json_format st || is_human_readable_format st = true) as ->.
    { unfold_format.
      repeat (apply elem_of_cons in Hf as [->|Hf]); [done | done |].
      by apply elem_of_nil in Hf. }
    unfold bind. rewrite (output_setitem_dict _ _ _ _ Hd).
    erewrite output_setitem_dict by apply record_mutate.
    eexists _, _. split_and!; [done | apply record_mutate | done |].
    apply dict_get_set_eq.
Qed.

Lemma gpuvsmi_status_masking_witness :
  (exists rec,
     record (store_output 0%Z "values"
               (VDict [("status", VStr "AMDSMI_STATUS_NOT_SUPPORTED")])
               (init "gpuvsmi" "csv" Stdout sample_helpers)).2 = VDict rec
     /\ Dict.get "status" rec = Some (VStr "N/A"))
  /\ (exists st' rec,
        store_output 0%Z "status" (VStr "AMDSMI_STATUS_NOT_SUPPORTED")
          (init "gpuvsmi" "human_readable" Stdout sample_helpers)
        = (Ok tt, st')
        /\ record st' = VDict rec
        /\ Dict.get "status" rec = Some (VStr "AMDSMI_STATUS_NOT_SUPPORTED")).
Proof.
  split.
  - destruct (gpuvsmi_status_masking
                (init "gpuvsmi" "csv" Stdout sample_helpers)
                0%Z "values"
                (VDict [("status", VStr "AMDSMI_STATUS_NOT_SUPPORTED")])
                eq_refl) as [Hcsv _].
    { intros d [= <-]. constructor. }
    destruct (Hcsv eq_refl
                (store_output 0%Z "values"
                   (VDict [("status", VStr "AMDSMI_STATUS_NOT_SUPPORTED")])
                   (init "gpuvsmi" "csv" Stdout sample_helpers)).2
                eq_refl)
      as (st1 & merged & rec & Hstore & Hm & Hrec & _ & Hmask).
    exists rec. split; [done|].
    vm_compute in Hstore. injection Hstore as <-.
    vm_compute in Hm. injection Hm as <-.
    apply (Hmask "status" "AMDSMI_STATUS_NOT_SUPPORTED"); [reflexivity | reflexivity |].
    intros k' Hin.
    repeat (apply elem_of_cons in Hin as [->|Hin]); try done.
    by apply elem_of_nil in Hin.
  - destruct (gpuvsmi_status_masking
                (init "gpuvsmi" "human_readable" Stdout sample_helpers)
                0%Z "status" (VStr "AMDSMI_STATUS_NOT_SUPPORTED")
                eq_refl) as [_ Hjson].
    { intros d [= <-]. constructor. }
    destruct (Hjson ltac:(apply list_elem_of_further, list_elem_of_here)
                [] eq_refl)
      as (st' & rec & Hstore & Hrec & _ & Hget).
    by exists st', rec.
Defined.

(** ** Data loss in the flattening *)

(** C4, as the specification states it, fails: two leaves that end under
    the same key overwrite each other.  Here the leaf [1] of
    [{x: {a: 1}, y: {a: 2}}] is lost. *)
Lemma flatten_dict_loses_leaf :
  Dict.wf [("x", VDict [("a", VInt 1)]); ("y", VDict [("a", VInt 2)])]
  /\ VInt 1 ∈ dict_leaves
               [("x", VDict [("a", VInt 1)]); ("y", VDict [("a", VInt 2)])]
  /\ flatten_dict false
       [("x", VDict [("a", VInt 1)]); ("y", VDict [("a", VInt 2)])]
     = [("a", VInt 2)]
  /\ VInt 1 ∉ Dict.values
               (flatten_dict false
                  [("x", VDict [("a", VInt 1)]); ("y", VDict [("a", VInt 2)])]).
Proof.
  split_and!.
  - unfold Dict.wf. simpl. apply NoDup_cons. split; [|apply NoDup_singleton].
    by intros [=]%list_elem_of_singleton.
  - apply list_elem_of_here.
  - reflexivity.
  - by intros [=]%list_elem_of_singleton.
Qed.

(** ** The destinations *)

Lemma string_app_nil_r (s : string) : s +:+ "" = s.
Proof.
  induction s as [|c s IH]; [reflexivity|].
  change (String c (s +:+ "") = String c s). by rewrite IH.
Qed.

Lemma file_content_append p text w :
  file_content (file_append p text w) p = file_content w p +:+ text.
Proof. unfold file_content at 1, file_append. simpl. by rewrite lookup_insert_eq. Qed.

Lemma file_content_append_ne p p' text w :
  p <> p' -> file_content (file_append p text w) p' = file_content w p'.
Proof.
  intros Hne. unfold file_content, file_append. simpl.
  by rewrite lookup_insert_ne.
Qed.

Lemma file_content_overwrite p text w :
  file_content (file_overwrite p text w) p = text.
Proof. unfold file_content, file_overwrite. simpl. by rewrite lookup_insert_eq. Qed.

(** Opening a file for appending and writing nothing leaves every content
    as it is. *)
Lemma file_content_touch p w p' :
  file_content (file_append p "" w) p' = file_content w p'.
Proof.
  destruct (decide (p = p')) as [->|Hne].
  - rewrite file_content_append. apply string_app_nil_r.
  - by apply file_content_append_ne.
Qed.

(** ** The csv emitter *)

Section CsvEmitter.

Context `{Serializers}.

(** A watch call of the csv emitter returns at once. *)
Lemma csv_emit_watch m st w : _print_csv_output m true st w = (Ok tt, w).
Proof. done. Qed.

Lemma dict_to_list_fits fieldnames d :
  Dict.keys d ⊆ fieldnames ->
  _dict_to_list fieldnames (VDict d) = Ok (csv_row fieldnames d).
Proof.
  intros Hsub. unfold _dict_to_list.
  rewrite bool_decide_eq_true_2; [done|].
  apply Forall_forall. intros k Hk. by apply Hsub.
Qed.

Lemma dict_to_list_extra fieldnames d k :
  k ∈ Dict.keys d -> k ∉ fieldnames ->
  _dict_to_list fieldnames (VDict d) = Raise ValueError.
Proof.
  intros Hk Hnot. unfold _dict_to_list.
  rewrite bool_decide_eq_false_2; [done|].
  rewrite Forall_forall. intros Hall. by apply Hnot, Hall.
Qed.

Lemma writerows_fits fieldnames ds written :
  Forall (fun d => Dict.keys d ⊆ fieldnames) ds ->
  writerows fieldnames (VDict <$> ds) written
  = (Ok tt,
     fold_left (fun written d => written +:+ csv_writerow (csv_row fieldnames d))
       ds written).
Proof.
  intros Hfit. revert written.
  induction Hfit as [|d ds Hd Hds IH]; intros written; [done|].
  rewrite fmap_cons. cbn [writerows fold_left].
  rewrite dict_to_list_fits by done. apply IH.
Qed.

(** The rows before a record with a field that is no column are
    written; the record itself raises. *)
Lemma writerows_extra fieldnames pre d post k written :
  Forall (fun d => Dict.keys d ⊆ fieldnames) pre ->
  k ∈ Dict.keys d -> k ∉ fieldnames ->
  writerows fieldnames (VDict <$> (pre ++ d :: post)) written
  = (Raise ValueError,
     fold_left (fun written d => written +:+ csv_writerow (csv_row fieldnames d))
       pre written).
Proof.
  intros Hfit Hk Hnot. revert written.
  induction Hfit as [|d0 pre Hd0 Hpre IH]; intros written.
  - rewrite app_nil_l, fmap_cons. cbn [writerows fold_left].
    by rewrite (dict_to_list_extra fieldnames d k).
  - rewrite <- app_comm_cons, fmap_cons. cbn [writerows fold_left].
    rewrite dict_to_list_fits by done. apply IH.
Qed.

Lemma write_csv_fits first rest :
  Forall (fun d => Dict.keys d ⊆ Dict.keys first) rest ->
  write_csv (VDict <$> first :: rest)
  = (Ok tt, csv_text (Dict.keys first) (first :: rest)).
Proof.
  intros Hfit. rewrite fmap_cons. unfold write_csv, csv_text.
  rewrite <- fmap_cons. apply writerows_fits.
  by constructor.
Qed.

Lemma write_csv_extra first pre d post k :
  Forall (fun d => Dict.keys d ⊆ Dict.keys first) pre ->
  k ∈ Dict.keys d -> k ∉ Dict.keys first ->
  write_csv (VDict <$> first :: pre ++ d :: post)
  = (Raise ValueError, csv_text (Dict.keys first) (first :: pre)).
Proof.
  intros Hfit Hk Hnot. rewrite fmap_cons. unfold write_csv, csv_text.
  rewrite <- fmap_cons, app_comm_cons.
  apply (writerows_extra _ (first :: pre) d post k); [|done|done].
  by constructor.
Qed.

(** C6, amended. The header line is the key list of the first record,
    in its insertion order.  When the keys of every other record are
    among those of the first, the text is the header followed by one
    line per record, with the cells in the order of the header and an
    empty cell for a missing key.  A record with a key that the first
    record does not have contributes no column and no line: the emitter
    raises [ValueError] at that record, nothing is printed on the
    terminal, and a file has received the header and the lines of the
    records before it. *)
Theorem csv_header_is_first_record m st w first rest :
  stored_csv_output m st = Some (VDict <$> first :: rest) ->
  (Forall (fun d => Dict.keys d ⊆ Dict.keys first) rest ->
   _print_csv_output m false st w
   = (Ok tt, emit_csv st (csv_text (Dict.keys first) (first :: rest)) w))
  /\ (forall pre d post k,
        rest = pre ++ d :: post ->
        Forall (fun d => Dict.keys d ⊆ Dict.keys first) pre ->
        k ∈ Dict.keys d -> k ∉ Dict.keys first ->
        _print_csv_output m false st w
        = (Raise ValueError,
           match destination st with
           | Stdout => w
           | FilePath p =>
               file_append p (csv_text (Dict.keys first) (first :: pre)) w
           end)).
Proof.
  intros Hstored. split.
  - intros Hfit. unfold _print_csv_output, emit_csv. rewrite Hstored.
    rewrite write_csv_fits by done.
    destruct (destination st); [|done].
    by destruct (is_gpuvsmi_compatibility st).
  - intros pre d post k -> Hfit Hk Hnot.
    unfold _print_csv_output. rewrite Hstored.
    rewrite (write_csv_extra first pre d post k) by done.
    by destruct (destination st).
Qed.

(** C10. With [multiple_device_output=False], when the current output
    is a list the csv emitter binds no record list and fails on the
    unbound local variable; nothing is printed and no file content
    changes. *)
Theorem csv_emit_of_list_is_unbound st w l :
  record st = VList l ->
  exists w',
    _print_csv_output false false st w = (Raise UnboundLocalError, w')
    /\ terminal w' = terminal w
    /\ forall p, file_content w' p = file_content w p.
Proof.
  intros Hrec. unfold _print_csv_output, stored_csv_output. rewrite Hrec.
  destruct (destination st) as [|p].
  - by exists w.
  - eexists. split_and!; [done | done |].
    intros p'. apply file_content_touch.
Qed.

End CsvEmitter.

(** C6, as the specification states it, fails: a second record with a
    field that the first record does not have is not rendered without
    the field.  The emitter raises [ValueError], and on the terminal
    nothing is printed, not even the header. *)
Lemma csv_emit_extra_field_raises :
  multiple_device_value
    ((run store_output 0%Z "values" (VDict []);
      run store_multiple_device_output;
      run store_output 1%Z "values" (VDict [("temperature", VInt 40)]);
      store_multiple_device_output)
       (init "amdsmi" "csv" Stdout sample_helpers)).2
  = [VDict [("gpu", VInt 0)];
     VDict [("gpu", VInt 1); ("temperature", VInt 40)]]
  /\ _print_csv_output true false
       ((run store_output 0%Z "values" (VDict []);
         run store_multiple_device_output;
         run store_output 1%Z "values" (VDict [("temperature", VInt 40)]);
         store_multiple_device_output)
          (init "amdsmi" "csv" Stdout sample_helpers)).2
       {| terminal := []; disk := ∅ |}
     = (Raise ValueError, {| terminal := []; disk := ∅ |}).
Proof. split; by vm_compute. Qed.


Lemma csv_header_is_first_record_witness :
  _print_csv_output false false
    (store_output 0%Z "values"
       (VDict [("power", VDict [("average_socket_power", VInt 15);
                                ("gfx_voltage", VInt 900)])])
       (init "amdsmi" "csv" Stdout sample_helpers)).2
    {| terminal := []; disk := ∅ |}
  = (Ok tt,
     {| terminal :=
          [csv_writerow
             [VStr "gpu"; VStr "average_socket_power"; VStr "gfx_voltage"]
           +:+ csv_writerow [VInt 0; VInt 15; VInt 900]];
        disk := ∅ |}).
Proof.
  destruct (csv_header_is_first_record false
              (store_output 0%Z "values"
                 (VDict [("power", VDict [("average_socket_power", VInt 15);
                                          ("gfx_voltage", VInt 900)])])
                 (init "amdsmi" "csv" Stdout sample_helpers)).2
              {| terminal := []; disk := ∅ |}
              [("gpu", VInt 0); ("average_socket_power", VInt 15);
               ("gfx_voltage", VInt 900)] [] eq_refl) as [Hfit _].
  rewrite Hfit by constructor. reflexivity.
Defined.

Lemma csv_emit_of_list_is_unbound_witness :
  exists w',
    _print_csv_output false false
      (with_heap {[ 0%nat := VList [VDict [("gpu", VInt 0)]] ]}
         (init "amdsmi" "csv" Stdout sample_helpers))
      {| terminal := []; disk := ∅ |}
    = (Raise UnboundLocalError, w')
    /\ terminal w' = terminal {| terminal := []; disk := ∅ |}
    /\ forall p,
         file_content w' p = file_content {| terminal := []; disk := ∅ |} p.
Proof.
  apply (csv_emit_of_list_is_unbound
           (with_heap {[ 0%nat := VList [VDict [("gpu", VInt 0)]] ]}
              (init "amdsmi" "csv" Stdout sample_helpers))
           {| terminal := []; disk := ∅ |}
           [VDict [("gpu", VInt 0)]]).
  reflexivity.
Defined.

(** ** Watch sessions *)

Lemma preserves_ret {A : Type} (a : A) : preserves_session (ret a).
Proof. done. Qed.

Lemma preserves_raise {A : Type} e : preserves_session (@raise A e).
Proof. done. Qed.

Lemma preserves_get_self : preserves_session get_self.
Proof. done. Qed.

Lemma preserves_mutate_output v : preserves_session (mutate_output v).
Proof. done. Qed.

Lemma preserves_rebind_output v : preserves_session (rebind_output v).
Proof. done. Qed.

Lemma preserves_bind {A B : Type} (m : M A) (k : A -> M B) :
  preserves_session m -> (forall a, preserves_session (k a)) ->
  preserves_session (bind m k).
Proof.
  intros Hm Hk st. unfold bind. specialize (Hm st).
  destruct (m st) as [[a|e] st1]; simpl in *; [|done].
  destruct (Hk a st1) as [-> ->]. done.
Qed.

Lemma preserves_output_setitem k v : preserves_session (output_setitem k v).
Proof. intros st. unfold output_setitem. by destruct (record st). Qed.

Lemma preserves_output_update other : preserves_session (output_update other).
Proof. intros st. unfold output_update. by destruct (record st). Qed.

Lemma preserves_flatten_data data : preserves_session (flatten_data data).
Proof. intros st. unfold flatten_data. by destruct data. Qed.

Ltac preserves_step :=
  match goal with
  | |- preserves_session (bind _ _) => apply preserves_bind; [|intros ?]
  | |- preserves_session (if ?b then _ else _) => destruct b
  | |- preserves_session (match ?v with _ => _ end) => destruct v
  | |- preserves_session _ =>
      first [ apply preserves_ret | apply preserves_raise
            | apply preserves_get_self | apply preserves_rebind_output
            | apply preserves_output_setitem | apply preserves_output_update
            | apply preserves_flatten_data ]
  end.

Lemma preserves_store_csv gpu_id argument data :
  preserves_session (store_csv gpu_id argument data).
Proof. unfold store_csv. repeat preserves_step. Qed.

Lemma preserves_store_output h argument data :
  preserves_session (store_output h argument data).
Proof.
  unfold store_output, _store_output_amdsmi, _store_output_rocmsmi,
    _store_output_gpuvsmi, raise_invalid_output_format.
  repeat first [apply preserves_store_csv | preserves_step].
Qed.

Lemma preserves_store_multiple_device_output :
  preserves_session store_multiple_device_output.
Proof.
  unfold store_multiple_device_output.
  repeat first [preserves_step | done].
Qed.

Section WatchSession.

Context `{Serializers}.

Lemma exec_calls_app_Ok cs1 cs2 s s2 :
  exec_calls (cs1 ++ cs2) s = (Ok tt, s2) ->
  exists s1, exec_calls cs1 s = (Ok tt, s1) /\ exec_calls cs2 s1 = (Ok tt, s2).
Proof.
  revert s. induction cs1 as [|c cs1 IH]; intros s Hexec; simpl in *.
  - by exists s.
  - destruct (exec_call c s) as [[[]|e] s']; [|done]. by apply IH.
Qed.

Lemma exec_collect_Ok collect st w st1 w1 :
  Forall is_collect collect ->
  exec_calls collect (st, w) = (Ok tt, (st1, w1)) ->
  w1 = w /\ watch_output st1 = watch_output st
  /\ destination st1 = destination st.
Proof.
  intros Hcollect. revert st.
  induction Hcollect as [|c collect Hc Hcollect IH]; intros st Hexec.
  - by injection Hexec as <- <-.
  - cbn [exec_calls] in Hexec.
    destruct c as [h argument data| | |]; try done; cbn [exec_call fst snd] in Hexec.
    + pose proof (preserves_store_output h argument data st) as [Hw Hd].
      destruct (store_output h argument data st) as [[[]|e] st']; [|done].
      apply IH in Hexec as (-> & -> & ->). done.
    + pose proof (preserves_store_multiple_device_output st) as [Hw Hd].
      destruct (store_multiple_device_output st) as [[[]|e] st']; [|done].
      apply IH in Hexec as (-> & -> & ->). done.
Qed.

(** A tick with a file destination: one sample more in the watch
    history, which refers to the record object of the tick (or to the
    multi-device list), and the json text of the current record (or of
    the multi-device list) appended to the file. *)
Lemma watch_tick_Ok collect m now st w st1 w1 p :
  Forall is_collect collect ->
  destination st = FilePath p ->
  exec_calls (watch_tick collect m now) (st, w) = (Ok tt, (st1, w1)) ->
  w1 = file_append p
         (json_dumps
            (if m then VList (deref st1 <$> multiple_device_output st1)
             else deref st1 (output st1))) w
  /\ watch_output st1
     = watch_output st ++ [(now, if m then WMulti else WRecord (output st1))]
  /\ destination st1 = FilePath p.
Proof.
  intros Hcollect Hdest Hexec. unfold watch_tick in Hexec.
  apply exec_calls_app_Ok in Hexec as ([st0 w0] & Hexec0 & Hexec).
  apply exec_collect_Ok in Hexec0 as (-> & Hwatch & Hdest0); [|done].
  rewrite Hdest in Hdest0.
  cbn [exec_calls exec_call fst snd store_watch_output] in Hexec.
  unfold _print_json_output in Hexec. cbn [destination with_watch_output] in Hexec.
  rewrite Hdest0 in Hexec. injection Hexec as <- <-.
  split_and!; [by destruct m | | done].
  cbn [watch_output output with_watch_output]. by rewrite Hwatch.
Qed.

(** C7. A watch session with the json format and a file destination.
    Each of the three ticks appends to the file the json text of the
    record as it is at that tick (of the list of the captured records,
    when watching several devices), so before the flush the file holds
    the three texts one after the other.  The final call with
    [watch_output=True] overwrites the file with the json text of the
    watch history: one array of three [{timestamp, values}] samples, in
    the order of the ticks, the values of a sample being the record
    object of its tick (the list of the captured records, when watching
    several devices) as it is at the flush.  The final content of the
    file is that array alone. *)
Theorem watch_session_flush st w p m c1 n1 c2 n2 c3 n3 st' w' :
  destination st = FilePath p ->
  watch_output st = [] ->
  Forall is_collect c1 -> Forall is_collect c2 -> Forall is_collect c3 ->
  exec_calls
    ((watch_tick c1 m n1 ++ watch_tick c2 m n2 ++ watch_tick c3 m n3)
     ++ [CallPrintJsonOutput m true])
    (st, w)
  = (Ok tt, (st', w')) ->
  exists st1 st2,
    let current s :=
      if m then VList (deref s <$> multiple_device_output s)
      else deref s (output s) in
    let sample now s :=
      VDict
        [("timestamp", VInt now);
         ("values",
          if m then VList (deref st' <$> multiple_device_output st')
          else deref st' (output s))] in
    let w1 := file_append p (json_dumps (current st1)) w in
    let w2 := file_append p (json_dumps (current st2)) w1 in
    let w3 := file_append p (json_dumps (current st')) w2 in
    exec_calls (watch_tick c1 m n1) (st, w) = (Ok tt, (st1, w1))
    /\ exec_calls (watch_tick c2 m n2) (st1, w1) = (Ok tt, (st2, w2))
    /\ exec_calls (watch_tick c3 m n3) (st2, w2) = (Ok tt, (st', w3))
    /\ file_content w3 p
       = ((file_content w p +:+ json_dumps (current st1))
          +:+ json_dumps (current st2))
         +:+ json_dumps (current st')
    /\ w' = file_overwrite p
              (json_dumps (VList [sample n1 st1; sample n2 st2; sample n3 st']))
              w3
    /\ file_content w' p
       = json_dumps (VList [sample n1 st1; sample n2 st2; sample n3 st']).
Proof.
  intros Hdest Hwatch Hc1 Hc2 Hc3 Hexec.
  apply exec_calls_app_Ok in Hexec as ([st3 w3] & Hticks & Hflush).
  apply exec_calls_app_Ok in Hticks as ([st1 w1] & Htick1 & Hticks).
  apply exec_calls_app_Ok in Hticks as ([st2 w2] & Htick2 & Htick3).
  pose proof Htick1 as (-> & Hw1 & Hd1)%(watch_tick_Ok _ _ _ _ _ _ _ p);
    [|done|done].
  pose proof Htick2 as (-> & Hw2 & Hd2)%(watch_tick_Ok _ _ _ _ _ _ _ p);
    [|done|done].
  pose proof Htick3 as (-> & Hw3 & Hd3)%(watch_tick_Ok _ _ _ _ _ _ _ p);
    [|done|done].
  cbn [exec_calls exec_call fst snd] in Hflush.
  unfold _print_json_output in Hflush. rewrite Hd3 in Hflush.
  injection Hflush as <- <-.
  assert (watch_value st3
          = VList
              [VDict
                 [("timestamp", VInt n1);
                  ("values",
                   if m then VList (deref st3 <$> multiple_device_output st3)
                   else deref st3 (output st1))];
               VDict
                 [("timestamp", VInt n2);
                  ("values",
                   if m then VList (deref st3 <$> multiple_device_output st3)
                   else deref st3 (output st2))];
               VDict
                 [("timestamp", VInt n3);
                  ("values",
                   if m then VList (deref st3 <$> multiple_device_output st3)
                   else deref st3 (output st3))]]) as Hvalue.
  { unfold watch_value. rewrite Hw3, Hw2, Hw1, Hwatch. by destruct m. }
  exists st1, st2. cbn zeta.
  split_and!; [done | done | done | | by rewrite Hvalue |].
  - by rewrite !file_content_append.
  - by rewrite file_content_overwrite, Hvalue.
Qed.

End WatchSession.

Lemma watch_session_flush_witness :
  exists st1 st2,
    file_content
      (exec_calls
         ((watch_tick [CallStoreOutput 0%Z "temperature" (VInt 40)] false 100
           ++ watch_tick [CallStoreOutput 0%Z "temperature" (VInt 50)] false 101
           ++ watch_tick [CallStoreOutput 0%Z "temperature" (VInt 60)] false 102)
          ++ [CallPrintJsonOutput false true])
         (init "amdsmi" "json" (FilePath "watch.json") sample_helpers,
          {| terminal := []; disk := ∅ |})).2.2
      "watch.json"
    = json_dumps
        (VList
           [VDict
              [("timestamp", VInt 100);
               ("values",
                deref
                  (exec_calls
                     ((watch_tick [CallStoreOutput 0%Z "temperature" (VInt 40)]
                         false 100
                       ++ watch_tick [CallStoreOutput 0%Z "temperature" (VInt 50)]
                            false 101
                       ++ watch_tick [CallStoreOutput 0%Z "temperature" (VInt 60)]
                            false 102)
                      ++ [CallPrintJsonOutput false true])
                     (init "amdsmi" "json" (FilePath "watch.json") sample_helpers,
                      {| terminal := []; disk := ∅ |})).2.1
                  (output st1))];
            VDict
              [("timestamp", VInt 101);
               ("values",
                deref
                  (exec_calls
                     ((watch_tick [CallStoreOutput 0%Z "temperature" (VInt 40)]
                         false 100
                       ++ watch_tick [CallStoreOutput 0%Z "temperature" (VInt 50)]
                            false 101
                       ++ watch_tick [CallStoreOutput 0%Z "temperature" (VInt 60)]
                            false 102)
                      ++ [CallPrintJsonOutput false true])
                     (init "amdsmi" "json" (FilePath "watch.json") sample_helpers,
                      {| terminal := []; disk := ∅ |})).2.1
                  (output st2))];
            VDict
              [("timestamp", VInt 102);
               ("values",
                record
                  (exec_calls
                     ((watch_tick [CallStoreOutput 0%Z "temperature" (VInt 40)]
                         false 100
                       ++ watch_tick [CallStoreOutput 0%Z "temperature" (VInt 50)]
                            false 101
                       ++ watch_tick [CallStoreOutput 0%Z "temperature" (VInt 60)]
                            false 102)
                      ++ [CallPrintJsonOutput false true])
                     (init "amdsmi" "json" (FilePath "watch.json") sample_helpers,
                      {| terminal := []; disk := ∅ |})).2.1)]]).
Proof.
  match goal with
  | |- exists _ _, file_content (exec_calls ?cs ?s0).2.2 _ = _ =>
      assert (exec_calls cs s0
              = (Ok tt, ((exec_calls cs s0).2.1, (exec_calls cs s0).2.2)))
        as Hexec by (by vm_compute)
  end.
  destruct (watch_session_flush
              (init "amdsmi" "json" (FilePath "watch.json") sample_helpers)
              {| terminal := []; disk := ∅ |} "watch.json" false
              [CallStoreOutput 0%Z "temperature" (VInt 40)] 100
              [CallStoreOutput 0%Z "temperature" (VInt 50)] 101
              [CallStoreOutput 0%Z "temperature" (VInt 60)] 102
              _ _ eq_refl eq_refl
              ltac:(repeat constructor) ltac:(repeat constructor)
              ltac:(repeat constructor) Hexec)
    as (st1 & st2 & _ & _ & _ & _ & _ & Hfile).
  exists st1, st2. exact Hfile.
Defined.

(** The samples of a watch history refer to the record object, which the
    later stores mutate: when the record is not rebound between the ticks,
    the three samples that the flush writes all show the last record. *)
Example watch_samples_alias_the_record :
  file_content
    (exec_calls
       ((watch_tick [CallStoreOutput 0%Z "temperature" (VInt 40)] false 100
         ++ watch_tick [CallStoreOutput 0%Z "temperature" (VInt 50)] false 101
         ++ watch_tick [CallStoreOutput 0%Z "temperature" (VInt 60)] false 102)
        ++ [CallPrintJsonOutput false true])
       (init "amdsmi" "json" (FilePath "watch.json") sample_helpers,
        {| terminal := []; disk := ∅ |})).2.2
    "watch.json"
  = json_dumps
      (VList
         [watch_entry 100 (VDict [("gpu", VInt 0); ("temperature", VInt 60)]);
          watch_entry 101 (VDict [("gpu", VInt 0); ("temperature", VInt 60)]);
          watch_entry 102 (VDict [("gpu", VInt 0); ("temperature", VInt 60)])]).
Proof. by vm_compute. Qed.

(** ** The record stays a dictionary with unique keys *)

Lemma init_record_wf c f d helpers : record_wf (init c f d helpers).
Proof. intros rec [= <-]. constructor. Qed.

Lemma record_wf_mutate st d :
  Dict.wf d ->
  record_wf (with_heap (<[output st := VDict d]> (heap st)) st).
Proof. intros Hwf d'. rewrite record_mutate. by intros [= <-]. Qed.

Lemma store_output_record_wf st h argument data st' :
  record_wf st ->
  store_output h argument data st = (Ok tt, st') ->
  record_wf st'.
Proof.
  intros Hwf. unfold store_output.
  intros (self & st0 & [= <- <-] & Hstore)%bind_Ok.
  destruct (is_amdsmi_compatibility st).
  { unfold _store_output_amdsmi in Hstore.
    apply bind_Ok in Hstore as (self & st0 & [= <- <-] & Hstore).
    destruct (is_json_format st || is_human_readable_format st).
    - apply bind_Ok in Hstore as ([] & st1 & Hgpu & Hrest).
      apply output_setitem_Ok in Hgpu as (d & Hd & ->).
      assert (Dict.wf (Dict.set "gpu" (VInt (gpu_id_of st h)) d)) as Hwf1
        by (by apply dict_set_wf, Hwf).
      destruct data as [| | | | |dd];
        try (apply output_setitem_Ok in Hrest as (d1 & Hd1 & ->);
             rewrite record_mutate in Hd1; injection Hd1 as <-;
             by apply record_wf_mutate, dict_set_wf).
      case_bool_decide.
      + apply output_update_Ok in Hrest as (d1 & Hd1 & ->).
        rewrite record_mutate in Hd1. injection Hd1 as <-.
        by apply record_wf_mutate, dict_update_wf.
      + apply output_setitem_Ok in Hrest as (d1 & Hd1 & ->).
        rewrite record_mutate in Hd1. injection Hd1 as <-.
        by apply record_wf_mutate, dict_set_wf.
    - destruct (is_csv_format st); [|done].
      apply store_csv_gpu in Hstore as (d & merged & Hd & Hm & Hwfm & _).
      intros d' Hd'. rewrite Hm in Hd'. injection Hd' as <-.
      by apply Hwfm, Hwf. }
  destruct (is_rocmsmi_compatibility st).
  { unfold _store_output_rocmsmi in Hstore.
    apply bind_Ok in Hstore as (self & st0 & [= <- <-] & Hstore).
    destruct (is_json_format st); [by injection Hstore as <-|].
    destruct (is_csv_format st); [by injection Hstore as <-|].
    destruct (is_human_readable_format st); [by injection Hstore as <-|done]. }
  destruct (is_gpuvsmi_compatibility st); [|by injection Hstore as <-].
  destruct (decide (format st = "csv")) as [Hf|Hf].
  - apply gpuvsmi_csv_Ok in Hstore as (st1 & merged & _ & _ & Hrec); [|done].
    intros d' Hd'. rewrite Hrec in Hd'. injection Hd' as <-.
    apply gpuv_postprocess_wf.
  - unfold _store_output_gpuvsmi in Hstore.
    apply bind_Ok in Hstore as (self & st0 & [= <- <-] & Hstore).
    destruct (is_json_format st || is_human_readable_format st).
    + apply bind_Ok in Hstore as ([] & st1 & Hgpu & Hset).
      apply output_setitem_Ok in Hgpu as (d & Hd & ->).
      apply output_setitem_Ok in Hset as (d1 & Hd1 & ->).
      rewrite record_mutate in Hd1. injection Hd1 as <-.
      by apply record_wf_mutate, dict_set_wf, dict_set_wf, Hwf.
    + unfold is_csv_format in Hstore.
      rewrite bool_decide_eq_false_2 in Hstore by done. done.
Qed.

(** * Further properties *)

(** ** The flattening engine, continued *)

(** X1. The result of [flatten_dict] is a single-level record: none of its
    values is a dictionary, whatever the nesting of the argument and the
    compatibility. *)
Theorem flatten_dict_single_level (gpuvsmi : bool) (r : dict) kv :
  kv ∈ flatten_dict gpuvsmi r -> is_dict kv.2 = false.
Proof.
  intros Hkv. pose proof (flatten_dict_flat gpuvsmi r) as Hflat.
  unfold flat in Hflat. rewrite Forall_forall in Hflat. by apply Hflat.
Qed.

Lemma flatten_dict_single_level_witness :
  is_dict ("gfx_voltage", VInt 900).2 = false.
Proof.
  apply (flatten_dict_single_level false
           [("gpu", VInt 0);
            ("power", VDict [("average_socket_power", VInt 15);
                             ("gfx_voltage", VInt 900)])]).
  do 2 apply list_elem_of_further. apply list_elem_of_here.
Defined.

(** X2. [flatten_dict] invents and duplicates nothing: the values of the
    result, counted with multiplicity, are among the leaves of the
    argument, so the result never has more entries than the argument has
    leaves. *)
Theorem flatten_dict_values_from_leaves (gpuvsmi : bool) (r : dict) :
  Dict.values (flatten_dict gpuvsmi r) ⊆+ dict_leaves r
  /\ length (flatten_dict gpuvsmi r) <= length (dict_leaves r).
Proof.
  pose proof (flatten_dict_values_leaves gpuvsmi r) as Hsub.
  split; [done|].
  apply submseteq_length in Hsub. unfold Dict.values in Hsub.
  by rewrite length_fmap in Hsub.
Qed.

Lemma flatten_dict_flat_id (gpuvsmi : bool) (d : dict) :
  flat d -> Dict.wf d -> flatten_dict gpuvsmi d = d.
Proof.
  intros Hflat Hwf. unfold flatten_dict. rewrite dict_size_eq.
  by apply flatten_fuel_flat_id.
Qed.

(** X3. A record that is already single-level is returned as it is, with
    its entries in the same order. *)
Theorem flatten_dict_single_level_unchanged (gpuvsmi : bool) (d : dict) :
  flat d -> Dict.wf d -> flatten_dict gpuvsmi d = d.
Proof.
  intros Hflat Hwf. unfold flatten_dict.
  rewrite dict_size_eq. by apply flatten_fuel_flat_id.
Qed.

Lemma flatten_dict_single_level_unchanged_witness :
  flatten_dict true [("gpu", VInt 0); ("asic", VStr "AMDSMI_STATUS_INVAL")]
  = [("gpu", VInt 0); ("asic", VStr "AMDSMI_STATUS_INVAL")].
Proof.
  apply flatten_dict_single_level_unchanged.
  - repeat constructor.
  - unfold Dict.wf. simpl. apply NoDup_cons. split; [|apply NoDup_singleton].
    by intros [=]%list_elem_of_singleton.
Defined.

Lemma value_with_parent_key_flat d :
  flat d -> Dict.wf d -> value_with_parent_key d = d.
Proof.
  intros Hflat Hwf. unfold value_with_parent_key.
  rewrite (fold_left_ext_in _ (fun acc kv => Dict.set kv.1 kv.2 acc)).
  - by apply (dict_rebuild []).
  - intros acc kv Hkv. unfold flat in Hflat. rewrite Forall_forall in Hflat.
    specialize (Hflat kv Hkv). by destruct kv.2.
Qed.

Lemma fold_left_fmap {A B C : Type} (f : A -> B -> A) (g : C -> B)
    (l : list C) (a : A) :
  fold_left f (g <$> l) a = fold_left (fun a x => f a (g x)) l a.
Proof. revert a. induction l as [|x l IH]; intros a; [done|]. apply IH. Qed.

Lemma gpuv_with_parent_key_update key d :
  gpuv_with_parent_key key d = Dict.update [] (prefix_entry key <$> d).
Proof. unfold gpuv_with_parent_key, Dict.update. by rewrite fold_left_fmap. Qed.

Lemma string_app_inj_l (p s1 s2 : string) : p +:+ s1 = p +:+ s2 -> s1 = s2.
Proof.
  induction p as [|c p IH]; [done|].
  change (String c (p +:+ s1) = String c (p +:+ s2) -> s1 = s2).
  intros [= Heq]. by apply IH.
Qed.

Lemma prefix_entry_wf key d : Dict.wf d -> Dict.wf (prefix_entry key <$> d).
Proof.
  unfold Dict.wf, Dict.keys. intros Hwf.
  assert ((prefix_entry key <$> d).*1 = (fun k => key +:+ "_" +:+ k) <$> d.*1)
    as ->.
  { induction d as [|[k v] d IH]; [done|]. rewrite !fmap_cons. f_equal.
    apply IH. by apply NoDup_cons in Hwf as [_ Hwf]. }
  apply NoDup_fmap_2; [|done].
  intros k1 k2 Heq. by apply string_app_inj_l, string_app_inj_l in Heq.
Qed.

Lemma prefix_entry_flat key d : flat d -> flat (prefix_entry key <$> d).
Proof.
  unfold flat. intros Hflat. apply Forall_fmap.
  eapply Forall_impl; [done|]. by intros [k v].
Qed.

Lemma flatten_step_child_spliced (gpuvsmi : bool) key (child acc : dict) :
  flat child -> Dict.wf child ->
  gpuvsmi = false \/ key ∉ gpuv_parent_keys ->
  flatten_step gpuvsmi (flatten_dict gpuvsmi) acc (key, VDict child)
  = Dict.update acc child.
Proof.
  intros Hflat Hwf Hkey. unfold flatten_step. cbn [fst snd].
  assert (flatten_arg gpuvsmi key child = child) as ->.
  { unfold flatten_arg.
    assert (gpuvsmi && bool_decide (key ∈ gpuv_parent_keys) = false) as ->.
    { destruct Hkey as [->|Hkey]; [done|].
      rewrite bool_decide_eq_false_2 by done. apply andb_false_r. }
    destruct (1 <? length child)%nat; [|done].
    by apply value_with_parent_key_flat. }
  by rewrite flatten_dict_flat_id.
Qed.

(** X4. A single-level dictionary stored under a key is spliced into the
    result without that key: [{k: {a: 1, b: 2}}] flattens to
    [{a: 1, b: 2}], unless the gpuvsmi compatibility prefixes the key. *)
Theorem flatten_dict_drops_parent_key (gpuvsmi : bool) key (child : dict) :
  flat child -> Dict.wf child ->
  gpuvsmi = false \/ key ∉ gpuv_parent_keys ->
  flatten_dict gpuvsmi [(key, VDict child)] = child.
Proof.
  intros Hflat Hwf Hkey. rewrite flatten_dict_eq. cbn [fold_left].
  rewrite flatten_step_child_spliced by done.
  by apply (dict_rebuild []).
Qed.

Lemma flatten_dict_drops_parent_key_witness :
  flatten_dict false
    [("power", VDict [("average_socket_power", VInt 15);
                      ("gfx_voltage", VInt 900)])]
  = [("average_socket_power", VInt 15); ("gfx_voltage", VInt 900)].
Proof.
  apply flatten_dict_drops_parent_key.
  - repeat constructor.
  - unfold Dict.wf. simpl. apply NoDup_cons. split; [|apply NoDup_singleton].
    by intros [=]%list_elem_of_singleton.
  - by left.
Defined.

Lemma flatten_step_child_prefixed key (child acc : dict) :
  key ∈ gpuv_parent_keys ->
  flat child -> Dict.wf child ->
  flatten_step true (flatten_dict true) acc (key, VDict child)
  = Dict.update acc (prefix_entry key <$> child).
Proof.
  intros Hkey Hflat Hwf. unfold flatten_step. cbn [fst snd].
  assert (flatten_arg true key child = prefix_entry key <$> child) as ->.
  { unfold flatten_arg. rewrite bool_decide_eq_true_2 by done. cbn [andb].
    assert ((if (1 <? length child)%nat then value_with_parent_key child
             else child) = child) as ->.
    { destruct (1 <? length child)%nat; [|done].
      by apply value_with_parent_key_flat. }
    rewrite gpuv_with_parent_key_update.
    apply (dict_rebuild []). by apply prefix_entry_wf. }
  by rewrite flatten_dict_flat_id
    by auto using prefix_entry_flat, prefix_entry_wf.
Qed.

(** X5. Under the gpuvsmi compatibility, a single-level dictionary (one
    with no dictionary among its values) stored under one of the keys
    [asic], [bus], [pcie], [vbios], [board], [limit] is written with every
    child under the key, an underscore and the child's key, also when it
    has a single child. *)
Theorem flatten_dict_gpuv_prefix key (child : dict) :
  key ∈ gpuv_parent_keys ->
  flat child -> Dict.wf child ->
  flatten_dict true [(key, VDict child)] = prefix_entry key <$> child.
Proof.
  intros Hkey Hflat Hwf. rewrite flatten_dict_eq. cbn [fold_left].
  rewrite flatten_step_child_prefixed by done.
  apply (dict_rebuild []). by apply prefix_entry_wf.
Qed.

Lemma flatten_dict_gpuv_prefix_witness :
  flatten_dict true [("asic", VDict [("market_name", VStr "X")])]
  = [("asic_market_name", VStr "X")].
Proof.
  apply (flatten_dict_gpuv_prefix "asic" [("market_name", VStr "X")]).
  - apply list_elem_of_here.
  - repeat constructor.
  - apply NoDup_singleton.
Defined.

Lemma flatten_step_empty_child gpuvsmi key acc :
  flatten_step gpuvsmi (flatten_dict gpuvsmi) acc (key, VDict []) = acc.
Proof.
  unfold flatten_step. cbn [fst snd].
  assert (flatten_arg gpuvsmi key [] = []) as ->; [|done].
  unfold flatten_arg. cbn [length Nat.ltb Nat.leb].
  by destruct (gpuvsmi && bool_decide (key ∈ gpuv_parent_keys)).
Qed.

(** X6. An entry whose value is an empty dictionary leaves no trace in
    the flattened record. *)
Theorem flatten_dict_empty_child (gpuvsmi : bool) key (d1 d2 : dict) :
  flatten_dict gpuvsmi (d1 ++ (key, VDict []) :: d2)
  = flatten_dict gpuvsmi (d1 ++ d2).
Proof.
  rewrite !flatten_dict_eq, !fold_left_app. cbn [fold_left].
  by rewrite flatten_step_empty_child.
Qed.

Lemma dict_update_app d l1 l2 :
  Dict.update d (l1 ++ l2) = Dict.update (Dict.update d l1) l2.
Proof. unfold Dict.update. apply fold_left_app. Qed.

Lemma value_with_parent_key_join value :
  value_with_parent_key value = Dict.update [] (join_children value).
Proof.
  unfold value_with_parent_key.
  enough (forall acc,
    fold_left
      (fun acc pc =>
         match pc.2 with
         | VDict child_dict =>
             fold_left
               (fun acc' cv => Dict.set (pc.1 +:+ "_" +:+ cv.1) cv.2 acc')
               child_dict acc
         | child => Dict.set pc.1 child acc
         end) value acc
    = Dict.update acc (join_children value)) as Hgen by apply Hgen.
  induction value as [|[k v] value IH]; intros acc; [done|].
  cbn [fold_left]. rewrite IH. unfold join_children. rewrite fmap_cons.
  cbn [concat fst snd]. rewrite dict_update_app. f_equal.
  destruct v as [| | | | |child]; try done.
  unfold Dict.update. by rewrite fold_left_fmap.
Qed.

(** *** When nothing is lost *)

Lemma prefix_entry_wf_inv key d : Dict.wf (prefix_entry key <$> d) -> Dict.wf d.
Proof.
  unfold Dict.wf, Dict.keys. rewrite <- list_fmap_compose.
  intros Hwf.
  apply (NoDup_fmap_1 (fun k => key +:+ "_" +:+ k)).
  by rewrite <- list_fmap_compose.
Qed.

(** Without a collision the dictionary on which [flatten_dict] recurses
    is the list of the entries written to it. *)
Lemma flatten_arg_written g key value :
  Dict.wf (written_arg g key value) ->
  flatten_arg g key value = written_arg g key value.
Proof.
  unfold flatten_arg, written_arg. intros Hwf.
  assert (Dict.wf (if (1 <? length value)%nat then join_children value
                   else value)) as Hwf1.
  { destruct (g && bool_decide (key ∈ gpuv_parent_keys)); [|done].
    by apply prefix_entry_wf_inv in Hwf. }
  assert ((if (1 <? length value)%nat then value_with_parent_key value
           else value)
          = (if (1 <? length value)%nat then join_children value else value))
    as ->.
  { destruct (1 <? length value)%nat; [|done].
    rewrite value_with_parent_key_join. by apply (dict_rebuild []). }
  destruct (g && bool_decide (key ∈ gpuv_parent_keys)); [|done].
  rewrite gpuv_with_parent_key_update. by apply (dict_rebuild []).
Qed.

(** Without a collision [flatten_dict] returns the list of its writes. *)
Lemma flatten_fuel_written g n target :
  collision_free_fuel g n target ->
  flatten_fuel g n target = written_fuel g n target.
Proof.
  revert target. induction n as [|n IH]; intros target; [done|].
  intros [Hwf Hall].
  transitivity (Dict.update [] (written_fuel g (S n) target));
    [|by apply (dict_rebuild [])].
  cbn [flatten_fuel written_fuel]. clear Hwf.
  enough (forall acc,
    fold_left (flatten_step g (flatten_fuel g n)) target acc
    = Dict.update acc
        (concat
           ((fun kv =>
               match kv.2 with
               | VDict value => written_fuel g n (written_arg g kv.1 value)
               | value => [(kv.1, value)]
               end) <$> target))) as Hgen by apply Hgen.
  induction Hall as [|[k v] target Hkv Hall IHt]; intros acc; [done|].
  rewrite fmap_cons. cbn [fold_left concat fst snd].
  rewrite dict_update_app, IHt. f_equal.
  unfold flatten_step. cbn [fst snd] in *.
  destruct v as [| | | | |value]; try done.
  destruct Hkv as [Hwfa Hfree].
  by rewrite flatten_arg_written, IH.
Qed.

Lemma sum_size_app d1 d2 : sum_size (d1 ++ d2) = sum_size d1 + sum_size d2.
Proof. unfold sum_size. by rewrite map_app, list_sum_app. Qed.

Lemma sum_size_prefix_entry key d : sum_size (prefix_entry key <$> d) = sum_size d.
Proof.
  induction d as [|[k v] d IH]; [done|].
  unfold sum_size, list_sum in *. rewrite fmap_cons. cbn [map fold_right].
  by rewrite IH.
Qed.

Lemma sum_size_join_children value :
  sum_size (join_children value) <= sum_size value.
Proof.
  unfold join_children. induction value as [|[k v] value IH]; [done|].
  rewrite fmap_cons. cbn [concat fst snd]. rewrite sum_size_app.
  assert (sum_size ((k, v) :: value) = value_size v + sum_size value) as ->
    by done.
  destruct v as [| | | | |child]; try (unfold sum_size at 1; simpl; lia).
  rewrite sum_size_prefix_entry.
  change (value_size (VDict child)) with (S (sum_size child)). lia.
Qed.

Lemma dict_size_written_arg g key value :
  dict_size (written_arg g key value) <= dict_size value.
Proof.
  rewrite !dict_size_eq. unfold written_arg.
  pose proof (sum_size_join_children value).
  destruct (g && bool_decide (key ∈ gpuv_parent_keys));
    rewrite ?sum_size_prefix_entry;
    destruct (1 <? length value)%nat; lia.
Qed.

Lemma dict_leaves_app d1 d2 :
  dict_leaves (d1 ++ d2) = dict_leaves d1 ++ dict_leaves d2.
Proof. unfold dict_leaves. cbn [leaves]. by rewrite map_app, concat_app. Qed.

Lemma dict_leaves_prefix_entry key d :
  dict_leaves (prefix_entry key <$> d) = dict_leaves d.
Proof.
  induction d as [|[k v] d IH]; [done|].
  rewrite fmap_cons. unfold prefix_entry at 1. cbn [fst snd].
  by rewrite !dict_leaves_cons, IH.
Qed.

Lemma dict_leaves_join_children value :
  dict_leaves (join_children value) = dict_leaves value.
Proof.
  unfold join_children. induction value as [|[k v] value IH]; [done|].
  rewrite fmap_cons. cbn [concat fst snd].
  rewrite dict_leaves_app, IH, dict_leaves_cons. f_equal.
  destruct v as [| | | | |child]; try done.
  apply dict_leaves_prefix_entry.
Qed.

Lemma dict_leaves_written_arg g key value :
  dict_leaves (written_arg g key value) = dict_leaves value.
Proof.
  unfold written_arg.
  destruct (g && bool_decide (key ∈ gpuv_parent_keys));
    rewrite ?dict_leaves_prefix_entry;
    destruct (1 <? length value)%nat;
    by rewrite ?dict_leaves_join_children.
Qed.

(** The list of the writes holds the leaves of the record, in their
    order. *)
Lemma written_fuel_values g n target :
  dict_size target <= n ->
  Dict.values (written_fuel g n target) = dict_leaves target.
Proof.
  revert target. induction n as [|n IH]; intros target Hn.
  { rewrite dict_size_eq in Hn. lia. }
  rewrite dict_size_eq in Hn. apply le_S_n in Hn.
  cbn [written_fuel].
  induction target as [|[k v] target IHt]; [done|].
  assert (sum_size ((k, v) :: target) = value_size v + sum_size target) as Hsum
    by done.
  rewrite fmap_cons. cbn [concat fst snd].
  unfold Dict.values in *. rewrite fmap_app, IHt by lia.
  rewrite dict_leaves_cons. f_equal.
  destruct v as [| | | | |value]; try done.
  pose proof (dict_size_written_arg g k value).
  change (value_size (VDict value)) with (dict_size value) in Hsum.
  rewrite IH by lia. apply dict_leaves_written_arg.
Qed.

(** Of the entries written to a dictionary under one key, the last one
    is kept. *)
Lemma dict_get_update_last k acc l :
  Dict.get k (Dict.update acc l)
  = match Dict.get k (reverse l) with
    | Some v => Some v
    | None => Dict.get k acc
    end.
Proof.
  induction l as [|[k' v'] l IH] using rev_ind; [done|].
  rewrite dict_update_app, reverse_app. cbn [reverse rev_append app Dict.get].
  change (Dict.update (Dict.update acc l) [(k', v')])
    with (Dict.set k' v' (Dict.update acc l)).
  destruct (decide (k = k')) as [->|Hne].
  - apply dict_get_set_eq.
  - by rewrite dict_get_set_ne.
Qed.

(** The result of [flatten_dict] is built from its writes. *)
Lemma flatten_dict_output_writes g r :
  flatten_dict g r = Dict.update [] (output_writes g r).
Proof.
  rewrite flatten_dict_eq. unfold output_writes.
  generalize (flatten_dict g). intros rec.
  enough (forall acc,
    fold_left (flatten_step g rec) r acc
    = Dict.update acc
        (concat
           ((fun kv =>
               match kv.2 with
               | VDict value => rec (flatten_arg g kv.1 value)
               | value => [(kv.1, value)]
               end) <$> r))) as Hgen by apply Hgen.
  induction r as [|[k v] r IH]; intros acc; [done|].
  rewrite fmap_cons. cbn [fold_left concat fst snd].
  rewrite dict_update_app, IH. f_equal.
  unfold flatten_step. cbn [fst snd]. by destruct v.
Qed.

(** C4, amended. Flattening invents nothing, and it loses nothing when no
    key collides.  The values of the flattened record are leaves of the
    record, each taken at most once.  When the flattening of the record is
    free of collisions, that is when every key written to a dictionary
    during the flattening (to the merged children of a dictionary with
    several entries, to the prefixed children of a gpuvsmi key, to the
    result of a call) is new in that dictionary, the flattened record is
    the list of the writes: its values are the leaves of the record, all
    of them and in their order, so every leaf of the record is a value of
    the flattened record.  When keys collide in the result, the entry
    written last under a key is the one that is kept.  (The leaves are the
    values that are not dictionaries, reached through nested
    dictionaries.) *)
Theorem flatten_dict_no_loss (gpuvsmi : bool) (r : dict) :
  Dict.values (flatten_dict gpuvsmi r) ⊆+ dict_leaves r
  /\ (forall k,
        Dict.get k (flatten_dict gpuvsmi r)
        = Dict.get k (reverse (output_writes gpuvsmi r)))
  /\ (collision_free gpuvsmi r ->
      flatten_dict gpuvsmi r = written gpuvsmi r
      /\ Dict.values (flatten_dict gpuvsmi r) = dict_leaves r
      /\ forall v, v ∈ dict_leaves r -> v ∈ Dict.values (flatten_dict gpuvsmi r)).
Proof.
  split; [apply flatten_dict_values_leaves|].
  split.
  { intros k. rewrite flatten_dict_output_writes, dict_get_update_last.
    by destruct (Dict.get k (reverse (output_writes gpuvsmi r))). }
  intros Hfree.
  assert (flatten_dict gpuvsmi r = written gpuvsmi r) as Heq
    by (by apply flatten_fuel_written).
  assert (Dict.values (flatten_dict gpuvsmi r) = dict_leaves r) as Hvalues.
  { rewrite Heq. by apply written_fuel_values. }
  split_and!; [done | done |].
  intros v Hv. by rewrite Hvalues.
Qed.

Lemma flatten_dict_no_loss_witness :
  collision_free true
    [("gpu", VInt 0);
     ("asic", VDict [("market_name", VStr "X"); ("vendor_id", VInt 4098)]);
     ("clock", VDict [("gfx", VDict [("cur", VInt 300); ("max", VInt 2100)]);
                      ("mem", VDict [("cur", VInt 96)])])]
  /\ flatten_dict true
       [("gpu", VInt 0);
        ("asic", VDict [("market_name", VStr "X"); ("vendor_id", VInt 4098)]);
        ("clock", VDict [("gfx", VDict [("cur", VInt 300); ("max", VInt 2100)]);
                         ("mem", VDict [("cur", VInt 96)])])]
     = [("gpu", VInt 0); ("asic_market_name", VStr "X");
        ("asic_vendor_id", VInt 4098); ("gfx_cur", VInt 300);
        ("gfx_max", VInt 2100); ("mem_cur", VInt 96)]
  /\ Dict.values
       (flatten_dict true
          [("gpu", VInt 0);
           ("asic", VDict [("market_name", VStr "X"); ("vendor_id", VInt 4098)]);
           ("clock", VDict [("gfx", VDict [("cur", VInt 300); ("max", VInt 2100)]);
                            ("mem", VDict [("cur", VInt 96)])])])
     = [VInt 0; VStr "X"; VInt 4098; VInt 300; VInt 2100; VInt 96].
Proof.
  assert (collision_free true
            [("gpu", VInt 0);
             ("asic", VDict [("market_name", VStr "X"); ("vendor_id", VInt 4098)]);
             ("clock", VDict [("gfx", VDict [("cur", VInt 300); ("max", VInt 2100)]);
                              ("mem", VDict [("cur", VInt 96)])])]) as Hfree.
  { unfold collision_free, dict_size. cbn.
    repeat first [ split
                 | apply Forall_cons
                 | apply Forall_nil
                 | by apply (bool_decide_unpack _) ]. }
  split; [exact Hfree|].
  destruct (flatten_dict_no_loss true
              [("gpu", VInt 0);
               ("asic", VDict [("market_name", VStr "X"); ("vendor_id", VInt 4098)]);
               ("clock", VDict [("gfx", VDict [("cur", VInt 300); ("max", VInt 2100)]);
                                ("mem", VDict [("cur", VInt 96)])])])
    as (_ & _ & Hno_loss).
  destruct (Hno_loss Hfree) as (Hwritten & Hvalues & _).
  split; [by rewrite Hwritten | by rewrite Hvalues].
Defined.

(** X7. A dictionary with more than one entry stored under a key, when
    the joined keys are distinct and no grandchild is a dictionary: the
    entries of its dictionary children are written under
    [child_key + "_" + grandchild_key] and its other children under their
    own key.  The key of the dictionary itself is dropped, unless the
    compatibility is gpuvsmi and the key is one of [asic], [bus], [pcie],
    [vbios], [board], [limit]: the key and an underscore are then put in
    front of each of these keys. *)
Theorem flatten_dict_joins_children (gpuvsmi : bool) key (value : dict) :
  1 < length value ->
  flat (join_children value) -> Dict.wf (join_children value) ->
  flatten_dict gpuvsmi [(key, VDict value)]
  = if gpuvsmi && bool_decide (key ∈ gpuv_parent_keys)
    then prefix_entry key <$> join_children value
    else join_children value.
Proof.
  intros Hlen Hflat Hwf. rewrite flatten_dict_eq.
  cbn [fold_left]. unfold flatten_step. cbn [fst snd].
  assert (written_arg gpuvsmi key value
          = if gpuvsmi && bool_decide (key ∈ gpuv_parent_keys)
            then prefix_entry key <$> join_children value
            else join_children value) as Harg.
  { unfold written_arg. apply Nat.ltb_lt in Hlen. by rewrite Hlen. }
  assert (flat (written_arg gpuvsmi key value)
          /\ Dict.wf (written_arg gpuvsmi key value)) as [Hflat' Hwf'].
  { rewrite Harg.
    destruct (gpuvsmi && bool_decide (key ∈ gpuv_parent_keys));
      auto using prefix_entry_flat, prefix_entry_wf. }
  rewrite flatten_arg_written by done.
  rewrite flatten_dict_flat_id by done.
  rewrite <- Harg. by apply (dict_rebuild []).
Qed.

Lemma flatten_dict_joins_children_witness :
  flatten_dict false
    [("clock", VDict [("gfx", VDict [("cur", VInt 300); ("max", VInt 2100)]);
                      ("mem", VDict [("cur", VInt 96)]);
                      ("locked", VBool false)])]
  = [("gfx_cur", VInt 300); ("gfx_max", VInt 2100); ("mem_cur", VInt 96);
     ("locked", VBool false)]
  /\ flatten_dict true
       [("asic", VDict [("id", VDict [("vendor", VInt 4098); ("device", VInt 29)]);
                        ("name", VStr "X")])]
     = [("asic_id_vendor", VInt 4098); ("asic_id_device", VInt 29);
        ("asic_name", VStr "X")].
Proof.
  split.
  - apply (flatten_dict_joins_children false "clock"
             [("gfx", VDict [("cur", VInt 300); ("max", VInt 2100)]);
              ("mem", VDict [("cur", VInt 96)]);
              ("locked", VBool false)]).
    + simpl. lia.
    + repeat constructor.
    + apply (bool_decide_unpack _). by vm_compute.
  - apply (flatten_dict_joins_children true "asic"
             [("id", VDict [("vendor", VInt 4098); ("device", VInt 29)]);
              ("name", VStr "X")]).
    + simpl. lia.
    + repeat constructor.
    + apply (bool_decide_unpack _). by vm_compute.
Defined.

(** X8. The join is not applied to a dictionary with a single entry: in
    [{k: {p: {a: 1, b: 2}}}] the entries of the innermost dictionary keep
    their own keys, with neither [k] nor [p] as a prefix. *)
Theorem flatten_dict_single_entry_no_prefix (gpuvsmi : bool) key parent
    (child : dict) :
  flat child -> Dict.wf child ->
  gpuvsmi = false
  \/ ((key ∉ gpuv_parent_keys) /\ (parent ∉ gpuv_parent_keys)) ->
  flatten_dict gpuvsmi [(key, VDict [(parent, VDict child)])] = child.
Proof.
  intros Hflat Hwf Hkey. rewrite flatten_dict_eq.
  cbn [fold_left]. unfold flatten_step. cbn [fst snd].
  assert (flatten_arg gpuvsmi key [(parent, VDict child)]
          = [(parent, VDict child)]) as ->.
  { unfold flatten_arg. cbn [length Nat.ltb Nat.leb].
    assert (gpuvsmi && bool_decide (key ∈ gpuv_parent_keys) = false) as ->;
      [|done].
    destruct Hkey as [->|[Hkey _]]; [done|].
    rewrite bool_decide_eq_false_2 by done. apply andb_false_r. }
  rewrite flatten_dict_eq. cbn [fold_left].
  rewrite flatten_step_child_spliced; [|done|done|].
  - rewrite (dict_rebuild [] child) by done. by apply (dict_rebuild []).
  - destruct Hkey as [->|[_ Hparent]]; [by left | by right].
Qed.

Lemma flatten_dict_single_entry_no_prefix_witness :
  flatten_dict false
    [("usage", VDict [("engine", VDict [("gfx", VInt 7); ("mem", VInt 3)])])]
  = [("gfx", VInt 7); ("mem", VInt 3)].
Proof.
  apply flatten_dict_single_entry_no_prefix.
  - repeat constructor.
  - unfold Dict.wf. simpl. apply NoDup_cons. split; [|apply NoDup_singleton].
    by intros [=]%list_elem_of_singleton.
  - by left.
Defined.

Lemma wrap_length ks k v : length (wrap ks [(k, v)]) = 1.
Proof. by destruct ks. Qed.

(** X9. Under the gpuvsmi compatibility the prefix is applied wherever
    the recursion meets one of the keys [asic], [bus], [pcie], [vbios],
    [board], [limit], not only on the keys of the record itself.  When
    such a key, bound to a single-level dictionary, is nested under any
    number of keys that are not in the list, each of them the single
    entry of its dictionary, the flattened record is made of the children
    under the key, an underscore and the child's key; the keys above are
    dropped. *)
Theorem flatten_dict_gpuv_prefix_nested (ks : list string) parent
    (child : dict) :
  Forall (fun k => k ∉ gpuv_parent_keys) ks ->
  parent ∈ gpuv_parent_keys ->
  flat child -> Dict.wf child ->
  flatten_dict true (wrap ks [(parent, VDict child)])
  = prefix_entry parent <$> child.
Proof.
  intros Hks Hparent Hflat Hwf.
  induction Hks as [|k ks Hk Hks IH].
  - cbn [wrap foldr]. rewrite flatten_dict_eq. cbn [fold_left].
    rewrite flatten_step_child_prefixed by done.
    apply (dict_rebuild []). by apply prefix_entry_wf.
  - change (wrap (k :: ks) [(parent, VDict child)])
      with [(k, VDict (wrap ks [(parent, VDict child)]))].
    rewrite flatten_dict_eq. cbn [fold_left]. unfold flatten_step. cbn [fst snd].
    assert (flatten_arg true k (wrap ks [(parent, VDict child)])
            = wrap ks [(parent, VDict child)]) as ->.
    { unfold flatten_arg. rewrite wrap_length. cbn [Nat.ltb Nat.leb].
      by rewrite bool_decide_eq_false_2. }
    rewrite IH. apply (dict_rebuild []). by apply prefix_entry_wf.
Qed.

Lemma flatten_dict_gpuv_prefix_nested_witness :
  flatten_dict true
    [("static",
      VDict [("board_info",
              VDict [("bus", VDict [("bdf", VStr "0000:01:00.0");
                                    ("max_pcie_width", VInt 16)])])])]
  = [("bus_bdf", VStr "0000:01:00.0"); ("bus_max_pcie_width", VInt 16)].
Proof.
  apply (flatten_dict_gpuv_prefix_nested ["static"; "board_info"] "bus"
           [("bdf", VStr "0000:01:00.0"); ("max_pcie_width", VInt 16)]).
  - repeat constructor; apply (bool_decide_unpack _); by vm_compute.
  - apply list_elem_of_further, list_elem_of_here.
  - repeat constructor.
  - apply (bool_decide_unpack _). by vm_compute.
Defined.

(** ** The gpuvsmi loop, continued *)

Lemma dict_set_elem_of kv k v d :
  kv ∈ Dict.set k v d -> kv = (k, v) \/ kv ∈ d.
Proof.
  induction d as [|[k' v'] r IH]; simpl.
  - intros ->%list_elem_of_singleton. by left.
  - destruct (decide (k = k')) as [->|Hne].
    + intros [->|Hin]%elem_of_cons; [by left | right; by right].
    + intros [->|Hin]%elem_of_cons; [right; by left|].
      destruct (IH Hin) as [->|Hr]; [by left | right; by right].
Qed.

Lemma dict_update_elem_of kv d other :
  kv ∈ Dict.update d other -> kv ∈ d \/ kv ∈ other.
Proof.
  revert d. induction other as [|[k v] other IH]; intros d; [by left|].
  rewrite dict_update_cons. intros [Hin|Hin]%IH; [|right; by right].
  apply dict_set_elem_of in Hin as [->|Hin]; [right; by left | by left].
Qed.

Lemma dict_keys_update_nil l k :
  k ∈ Dict.keys (Dict.update [] l) <-> k ∈ Dict.keys l.
Proof.
  rewrite dict_elem_of_keys_update. unfold Dict.keys at 1. simpl.
  rewrite elem_of_nil. tauto.
Qed.

(** X10. The loop of the gpuvsmi compatibility never raises (the popped
    key is always present), and the record it builds has the keys of the
    record it reads, [bdf] and [uuid] being replaced by [gpu_bdf] and
    [gpu_uuid]: no key [bdf] or [uuid] is left, and no string value
    contains ["AMDSMI_STATUS"]. *)
Theorem gpuv_postprocess_renames (d : dict) :
  exists r,
    gpuv_postprocess d = Ok r
    /\ (forall k, k ∈ Dict.keys r <-> exists k0, k0 ∈ Dict.keys d /\ k = gpuv_key k0)
    /\ ("bdf" ∉ Dict.keys r) /\ ("uuid" ∉ Dict.keys r)
    /\ Forall (fun kv => is_status_string kv.2 = false) r.
Proof.
  exists (Dict.update [] (gpuv_entry <$> d)).
  assert (forall k,
    k ∈ Dict.keys (Dict.update [] (gpuv_entry <$> d))
    <-> exists k0, k0 ∈ Dict.keys d /\ k = gpuv_key k0) as Hkeys.
  { intros k. rewrite dict_keys_update_nil. unfold Dict.keys.
    rewrite <- list_fmap_compose, list_elem_of_fmap. split.
    - intros ([k0 v0] & -> & Hin). exists k0. split; [|done].
      apply list_elem_of_fmap. by exists (k0, v0).
    - intros (k0 & ([k1 v1] & -> & Hin)%list_elem_of_fmap & ->).
      by exists (k1, v1). }
  split_and!; [apply gpuv_postprocess_eq | done | | |
               apply gpuv_postprocess_masked].
  - intros (k0 & _ & Heq)%Hkeys.
    apply (gpuv_key_not_renamed k0). rewrite <- Heq. apply list_elem_of_here.
  - intros (k0 & _ & Heq)%Hkeys.
    apply (gpuv_key_not_renamed k0). rewrite <- Heq.
    apply list_elem_of_further, list_elem_of_here.
Qed.

Lemma gpuv_entry_fixed kv d :
  kv ∈ Dict.update [] (gpuv_entry <$> d) -> gpuv_entry kv = kv.
Proof.
  intros [Hin|Hin]%dict_update_elem_of; [by apply elem_of_nil in Hin|].
  apply list_elem_of_fmap in Hin as ([k0 v0] & -> & _).
  unfold gpuv_entry. cbn [fst snd]. f_equal.
  - unfold gpuv_key at 1. rewrite bool_decide_eq_false_2; [done|].
    apply gpuv_key_not_renamed.
  - unfold gpuv_value at 1. by rewrite gpuv_value_not_status.
Qed.

Lemma fmap_fixed {A : Type} (f : A -> A) (l : list A) :
  (forall x, x ∈ l -> f x = x) -> f <$> l = l.
Proof.
  induction l as [|x l IH]; intros Hl; [done|].
  rewrite fmap_cons. f_equal.
  - apply Hl. apply list_elem_of_here.
  - apply IH. intros y Hy. apply Hl. by right.
Qed.

(** X11. The loop is idempotent: run on the record it has built, it
    builds the same record, with the entries in the same order. *)
Theorem gpuv_postprocess_idempotent (d r : dict) :
  gpuv_postprocess d = Ok r -> gpuv_postprocess r = Ok r.
Proof.
  rewrite gpuv_postprocess_eq. intros [= <-].
  rewrite gpuv_postprocess_eq. f_equal.
  assert (gpuv_entry <$> Dict.update [] (gpuv_entry <$> d)
          = Dict.update [] (gpuv_entry <$> d)) as ->.
  { apply fmap_fixed. intros kv Hkv. by apply (gpuv_entry_fixed kv d). }
  apply (dict_rebuild []). apply gpuv_postprocess_wf.
Qed.

Lemma gpuv_postprocess_idempotent_witness :
  gpuv_postprocess
    [("gpu", VInt 0); ("status", VStr "N/A"); ("gpu_bdf", VStr "0000:01:00.0")]
  = Ok [("gpu", VInt 0); ("status", VStr "N/A"); ("gpu_bdf", VStr "0000:01:00.0")].
Proof.
  apply (gpuv_postprocess_idempotent
           [("gpu", VInt 0); ("status", VStr "AMDSMI_STATUS_NO_DATA");
            ("bdf", VStr "0000:01:00.0")]).
  reflexivity.
Defined.

(** X12. The value of [bdf] (of [uuid]) is found under [gpu_bdf]
    ([gpu_uuid]) after the loop, with a status string replaced, when the
    record does not already have that key. *)
Theorem gpuv_postprocess_moves_value (d r : dict) k v :
  Dict.wf d ->
  k ∈ ["bdf"; "uuid"] ->
  Dict.get k d = Some v ->
  "gpu_" +:+ k ∉ Dict.keys d ->
  gpuv_postprocess d = Ok r ->
  Dict.get ("gpu_" +:+ k) r = Some (gpuv_value v) /\ Dict.get k r = None.
Proof.
  intros Hwf Hk Hget Hfree. rewrite gpuv_postprocess_eq. intros [= <-].
  assert (gpuv_key k = "gpu_" +:+ k) as Hkey.
  { unfold gpuv_key. by rewrite bool_decide_eq_true_2. }
  split.
  - rewrite <- Hkey. apply gpuv_postprocess_get; [done | done |].
    intros k' Hin Heq. rewrite Hkey in Heq. unfold gpuv_key in Heq.
    case_bool_decide as Hk'.
    + by apply string_app_inj_l in Heq.
    + subst k'. done.
  - apply dict_get_None. rewrite dict_keys_update_nil.
    intros (kv & -> & Hin)%list_elem_of_fmap.
    apply list_elem_of_fmap in Hin as ([k0 v0] & -> & _).
    by apply (gpuv_key_not_renamed k0).
Qed.

Lemma gpuv_postprocess_moves_value_witness :
  Dict.get ("gpu_" +:+ "bdf")
    [("gpu", VInt 0); ("gpu_bdf", VStr "0000:01:00.0")]
  = Some (gpuv_value (VStr "0000:01:00.0"))
  /\ Dict.get "bdf" [("gpu", VInt 0); ("gpu_bdf", VStr "0000:01:00.0")] = None.
Proof.
  apply (gpuv_postprocess_moves_value
           [("gpu", VInt 0); ("bdf", VStr "0000:01:00.0")]).
  - apply (bool_decide_unpack _). by vm_compute.
  - apply list_elem_of_here.
  - reflexivity.
  - apply (bool_decide_unpack _). by vm_compute.
  - reflexivity.
Defined.

(** ** The store operations, continued *)

(** X13. [store_output] has no branch for a compatibility that is none of
    amdsmi, rocmsmi and gpuvsmi: the call returns without error and
    without storing anything, whatever the format. *)
Theorem store_output_unknown_compatibility st h argument data :
  compatibility st ∉ ["amdsmi"; "rocmsmi"; "gpuvsmi"] ->
  store_output h argument data st = (Ok tt, st).
Proof.
  intros Hc. unfold_compatibility.
  rewrite !bool_decide_eq_false_2; [done | | |];
    intros Heq; apply Hc; rewrite Heq; repeat constructor.
Qed.

Lemma store_output_unknown_compatibility_witness :
  store_output 0%Z "values" (VDict [("temperature", VInt 40)])
    (init "nvidia-smi" "json" Stdout sample_helpers)
  = (Ok tt, init "nvidia-smi" "json" Stdout sample_helpers).
Proof.
  apply store_output_unknown_compatibility.
  apply (bool_decide_unpack _). by vm_compute.
Defined.

Lemma output_setitem_not_dict k v st :
  is_dict (record st) = false -> output_setitem k v st = (Raise TypeError, st).
Proof. unfold output_setitem. by destruct (record st). Qed.

(** X14. When the current output is not a dictionary (a list, [None]),
    a store under the amdsmi or the gpuvsmi compatibility fails with
    [TypeError] on its first assignment, in each of the three formats, and
    leaves the logger as it was. *)
Theorem store_output_not_dict st h argument data :
  compatibility st ∈ ["amdsmi"; "gpuvsmi"] ->
  format st ∈ ["json"; "csv"; "human_readable"] ->
  is_dict (record st) = false ->
  store_output h argument data st = (Raise TypeError, st).
Proof.
  intros Hc Hf Hrec.
  repeat (apply elem_of_cons in Hc as [Hc|Hc]); [| |by apply elem_of_nil in Hc].
  - rewrite store_output_amdsmi by done.
    unfold _store_output_amdsmi, bind at 1, get_self. unfold_format.
    repeat (apply elem_of_cons in Hf as [->|Hf]);
      [| | |by apply elem_of_nil in Hf];
      cbn [bool_decide decide_rel orb]; simpl;
      unfold store_csv, bind; by rewrite output_setitem_not_dict.
  - rewrite store_output_gpuvsmi by done.
    unfold _store_output_gpuvsmi, bind at 1, get_self. unfold_format.
    repeat (apply elem_of_cons in Hf as [->|Hf]);
      [| | |by apply elem_of_nil in Hf];
      cbn [bool_decide decide_rel orb]; simpl;
      unfold store_csv, bind; by rewrite output_setitem_not_dict.
Qed.

Lemma store_output_not_dict_witness :
  store_output 0%Z "values" (VDict [("temperature", VInt 40)])
    (with_heap {[ 0%nat := VList [] ]} (init "gpuvsmi" "csv" Stdout sample_helpers))
  = (Raise TypeError,
     with_heap {[ 0%nat := VList [] ]} (init "gpuvsmi" "csv" Stdout sample_helpers)).
Proof.
  apply store_output_not_dict.
  - apply list_elem_of_further, list_elem_of_here.
  - apply list_elem_of_further, list_elem_of_here.
  - reflexivity.
Defined.

(** X15. In the csv format, a store under the key ["values"] of data that
    is not a dictionary fails with [AttributeError] in [flatten_dict];
    the key ["gpu"] has been written by then, and nothing else. *)
Theorem store_csv_values_not_dict st h data rec :
  compatibility st ∈ ["amdsmi"; "gpuvsmi"] ->
  format st = "csv" ->
  record st = VDict rec ->
  is_dict data = false ->
  store_output h "values" data st
  = (Raise AttributeError,
     with_heap
       (<[output st := VDict (Dict.set "gpu" (VInt (gpu_id_of st h)) rec)]>
          (heap st)) st).
Proof.
  intros Hc Hf Hrec Hdata.
  assert (store_csv (gpu_id_of st h) "values" data st
          = (Raise AttributeError,
             with_heap
               (<[output st := VDict (Dict.set "gpu" (VInt (gpu_id_of st h)) rec)]>
                  (heap st)) st)) as Hcsv.
  { unfold store_csv, bind. rewrite (output_setitem_dict _ _ _ _ Hrec).
    cbn [orb]. unfold flatten_data. by destruct data. }
  repeat (apply elem_of_cons in Hc as [Hc|Hc]); [| |by apply elem_of_nil in Hc].
  - by rewrite store_output_amdsmi, amdsmi_csv_store_csv.
  - rewrite store_output_gpuvsmi by done.
    unfold _store_output_gpuvsmi, bind, get_self. unfold_format.
    rewrite Hf. simpl. by rewrite Hcsv.
Qed.

Lemma store_csv_values_not_dict_witness :
  store_output 0%Z "values" (VList [VInt 1; VInt 2])
    (init "amdsmi" "csv" Stdout sample_helpers)
  = (Raise AttributeError,
     with_heap
       (<[output (init "amdsmi" "csv" Stdout sample_helpers)
          := VDict (Dict.set "gpu"
                      (VInt (gpu_id_of (init "amdsmi" "csv" Stdout sample_helpers) 0%Z))
                      [])]>
          (heap (init "amdsmi" "csv" Stdout sample_helpers)))
       (init "amdsmi" "csv" Stdout sample_helpers)).
Proof.
  apply store_csv_values_not_dict.
  - apply list_elem_of_here.
  - reflexivity.
  - reflexivity.
  - reflexivity.
Defined.

Lemma dict_get_update_in k v d other :
  Dict.wf other -> Dict.get k other = Some v ->
  Dict.get k (Dict.update d other) = Some v.
Proof.
  intros Hwf Hget. apply dict_get_update_unique.
  - by apply dict_get_Some_elem_of.
  - intros v' Hin. apply (dict_elem_of_get _ _ _ Hwf) in Hin. congruence.
Qed.

Lemma amdsmi_json_store gpu_id argument data st rec :
  format st ∈ ["json"; "human_readable"] ->
  record st = VDict rec ->
  _store_output_amdsmi gpu_id argument data st
  = (Ok tt,
     with_heap
       (<[output st :=
            VDict
              (match data with
               | VDict d =>
                   if bool_decide (argument = "values")
                   then Dict.update (Dict.set "gpu" (VInt gpu_id) rec) d
                   else Dict.set argument data (Dict.set "gpu" (VInt gpu_id) rec)
               | _ => Dict.set argument data (Dict.set "gpu" (VInt gpu_id) rec)
               end)]> (heap st)) st).
Proof.
  intros Hf Hrec.
  assert (is_json_format st || is_human_readable_format st = true) as Hfmt.
  { unfold_format.
    repeat (apply elem_of_cons in Hf as [->|Hf]); try done.
    by apply elem_of_nil in Hf. }
  unfold _store_output_amdsmi, bind at 1, get_self. rewrite Hfmt.
  unfold bind. rewrite (output_setitem_dict _ _ _ _ Hrec).
  assert (forall v (h : gmap loc value),
            with_heap (<[output st := v]> h)
              (with_heap h st) = with_heap (<[output st := v]> h) st)
    as Hheap by done.
  destruct data as [| | | | |d];
    try (erewrite output_setitem_dict by apply record_mutate;
         cbn [output with_heap heap]; by rewrite insert_insert_eq).
  case_bool_decide.
  - erewrite output_update_dict by apply record_mutate.
    cbn [output with_heap heap]. by rewrite insert_insert_eq.
  - erewrite output_setitem_dict by apply record_mutate.
    cbn [output with_heap heap]. by rewrite insert_insert_eq.
Qed.

(** X16. Store then look up, amdsmi compatibility with the json or the
    human_readable format: unless the call is the splice of a dictionary
    under ["values"], the record binds the key to the data as it is, the
    other keys but ["gpu"] keep their values, and the record object is the
    same object. *)
Theorem amdsmi_json_store_lookup st h argument data rec :
  compatibility st = "amdsmi" ->
  format st ∈ ["json"; "human_readable"] ->
  record st = VDict rec ->
  argument <> "values" \/ is_dict data = false ->
  exists st' rec',
    store_output h argument data st = (Ok tt, st')
    /\ output st' = output st
    /\ record st' = VDict rec'
    /\ Dict.get argument rec' = Some data
    /\ forall k, k <> argument -> k <> "gpu" -> Dict.get k rec' = Dict.get k rec.
Proof.
  intros Hc Hf Hrec Hcond.
  rewrite store_output_amdsmi by done.
  rewrite (amdsmi_json_store _ _ _ _ rec) by done.
  eexists _, (Dict.set argument data (Dict.set "gpu" (VInt (gpu_id_of st h)) rec)).
  split_and!; [done | done | | apply dict_get_set_eq |].
  - rewrite record_mutate.
    destruct data as [| | | | |d]; try done.
    destruct Hcond as [Harg|Hd]; [|done].
    by rewrite bool_decide_eq_false_2.
  - intros k Hk Hgpu. by rewrite !dict_get_set_ne.
Qed.

Lemma amdsmi_json_store_lookup_witness :
  exists st' rec',
    store_output 0%Z "asic" (VDict [("market_name", VStr "X")])
      (init "amdsmi" "human_readable" Stdout sample_helpers) = (Ok tt, st')
    /\ output st' = output (init "amdsmi" "human_readable" Stdout sample_helpers)
    /\ record st' = VDict rec'
    /\ Dict.get "asic" rec' = Some (VDict [("market_name", VStr "X")])
    /\ forall k, k <> "asic" -> k <> "gpu" -> Dict.get k rec' = Dict.get k [].
Proof.
  apply (amdsmi_json_store_lookup
           (init "amdsmi" "human_readable" Stdout sample_helpers) 0%Z "asic"
           (VDict [("market_name", VStr "X")]) []).
  - reflexivity.
  - apply list_elem_of_further, list_elem_of_here.
  - reflexivity.
  - by left.
Defined.

(** X17. The splice of ["values"], amdsmi compatibility with the json or
    the human_readable format: the entries of the data dictionary are
    merged one level deep, without prefix.  Every key of the data is bound
    to its value in the data (a nested dictionary stays nested), also the
    key ["gpu"]; a key that the data does not have keeps its value, and
    no key ["values"] is created. *)
Theorem amdsmi_json_store_values st h (d rec : dict) :
  compatibility st = "amdsmi" ->
  format st ∈ ["json"; "human_readable"] ->
  record st = VDict rec ->
  Dict.wf d ->
  exists st' rec',
    store_output h "values" (VDict d) st = (Ok tt, st')
    /\ record st' = VDict rec'
    /\ (forall k v, Dict.get k d = Some v -> Dict.get k rec' = Some v)
    /\ (forall k, k ∉ Dict.keys d -> k <> "gpu" ->
          Dict.get k rec' = Dict.get k rec)
    /\ ("gpu" ∉ Dict.keys d ->
        Dict.get "gpu" rec' = Some (VInt (gpu_id_of st h))).
Proof.
  intros Hc Hf Hrec Hwf.
  rewrite store_output_amdsmi by done.
  rewrite (amdsmi_json_store _ _ _ _ rec) by done.
  eexists _, (Dict.update (Dict.set "gpu" (VInt (gpu_id_of st h)) rec) d).
  split_and!; [done | by rewrite record_mutate | | |].
  - intros k v Hget. by apply dict_get_update_in.
  - intros k Hk Hgpu. rewrite dict_get_update_ne by done.
    by apply dict_get_set_ne.
  - intros Hgpu. rewrite dict_get_update_ne by done. apply dict_get_set_eq.
Qed.

Lemma amdsmi_json_store_values_witness :
  exists st' rec',
    store_output 0%Z "values" (VDict [("power", VDict [("average", VInt 15)])])
      (init "amdsmi" "json" Stdout sample_helpers) = (Ok tt, st')
    /\ record st' = VDict rec'
    /\ (forall k v,
          Dict.get k [("power", VDict [("average", VInt 15)])] = Some v ->
          Dict.get k rec' = Some v)
    /\ (forall k,
          k ∉ Dict.keys [("power", VDict [("average", VInt 15)])] ->
          k <> "gpu" -> Dict.get k rec' = Dict.get k [])
    /\ ("gpu" ∉ Dict.keys [("power", VDict [("average", VInt 15)])] ->
        Dict.get "gpu" rec'
        = Some (VInt (gpu_id_of (init "amdsmi" "json" Stdout sample_helpers) 0%Z))).
Proof.
  apply (amdsmi_json_store_values
           (init "amdsmi" "json" Stdout sample_helpers) 0%Z
           [("power", VDict [("average", VInt 15)])] []).
  - reflexivity.
  - apply list_elem_of_here.
  - reflexivity.
  - apply NoDup_singleton.
Defined.

(** ** Aliasing of the record object *)

Lemma keeps_output_bind {A B : Type} (m : M A) (k : A -> M B) :
  keeps_output m -> (forall a, keeps_output (k a)) -> keeps_output (bind m k).
Proof.
  intros Hm Hk st. unfold bind. specialize (Hm st).
  destruct (m st) as [[a|e] st1]; simpl in *; [|done].
  by rewrite Hk.
Qed.

Lemma keeps_output_setitem k v : keeps_output (output_setitem k v).
Proof. intros st. unfold output_setitem. by destruct (record st). Qed.

Lemma keeps_output_update other : keeps_output (output_update other).
Proof. intros st. unfold output_update. by destruct (record st). Qed.

Lemma keeps_output_flatten_data data : keeps_output (flatten_data data).
Proof. intros st. unfold flatten_data. by destruct data. Qed.

Ltac keeps_output_step :=
  match goal with
  | |- keeps_output (bind _ _) => apply keeps_output_bind; [|intros ?]
  | |- keeps_output (if ?b then _ else _) => destruct b
  | |- keeps_output (match ?v with _ => _ end) => destruct v
  | |- keeps_output _ =>
      first [ apply keeps_output_setitem | apply keeps_output_update
            | apply keeps_output_flatten_data | done ]
  end.

Lemma keeps_output_store_csv gpu_id argument data :
  keeps_output (store_csv gpu_id argument data).
Proof. unfold store_csv. repeat keeps_output_step. Qed.

Lemma keeps_output_amdsmi gpu_id argument data :
  keeps_output (_store_output_amdsmi gpu_id argument data).
Proof.
  unfold _store_output_amdsmi, raise_invalid_output_format.
  repeat first [apply keeps_output_store_csv | keeps_output_step].
Qed.

(** X18. Under the amdsmi compatibility the stores mutate the record
    object in place, and a watch sample refers to that object: a sample
    taken before a store shows the record as it is after the store. *)
Theorem watch_sample_sees_later_store st h argument data now st1 st2 :
  compatibility st = "amdsmi" ->
  store_watch_output false now st = (Ok tt, st1) ->
  store_output h argument data st1 = (Ok tt, st2) ->
  watch_output st2 = watch_output st ++ [(now, WRecord (output st2))]
  /\ watch_value st2
     = VList ((watch_sample st2 <$> watch_output st)
              ++ [watch_entry now (record st2)]).
Proof.
  intros Hc [= <-] Hstore.
  pose proof (preserves_store_output h argument data
                (with_watch_output
                   (watch_output st ++ [(now, WRecord (output st))]) st))
    as [Hwatch _].
  pose proof (keeps_output_amdsmi (gpu_id_of st h) argument data
                (with_watch_output
                   (watch_output st ++ [(now, WRecord (output st))]) st))
    as Hout.
  rewrite store_output_amdsmi in Hstore, Hwatch by done.
  change (gpu_id_of (with_watch_output _ st) h) with (gpu_id_of st h)
    in Hstore, Hwatch.
  rewrite Hstore in Hwatch, Hout. cbn [snd] in Hwatch, Hout.
  cbn [watch_output output with_watch_output] in Hwatch, Hout.
  assert (watch_output st2 = watch_output st ++ [(now, WRecord (output st2))])
    as Hw by (by rewrite Hwatch, Hout).
  split; [done|].
  unfold watch_value. rewrite Hw at 1. by rewrite fmap_app.
Qed.

Lemma watch_sample_sees_later_store_witness :
  watch_value
    (store_output 0%Z "temperature" (VInt 50)
       (store_watch_output false 100
          (store_output 0%Z "temperature" (VInt 40)
             (init "amdsmi" "json" Stdout sample_helpers)).2).2).2
  = VList
      [watch_entry 100 (VDict [("gpu", VInt 0); ("temperature", VInt 50)])].
Proof.
  destruct (watch_sample_sees_later_store
              (store_output 0%Z "temperature" (VInt 40)
                 (init "amdsmi" "json" Stdout sample_helpers)).2
              0%Z "temperature" (VInt 50) 100
              (store_watch_output false 100
                 (store_output 0%Z "temperature" (VInt 40)
                    (init "amdsmi" "json" Stdout sample_helpers)).2).2
              (store_output 0%Z "temperature" (VInt 50)
                 (store_watch_output false 100
                    (store_output 0%Z "temperature" (VInt 40)
                       (init "amdsmi" "json" Stdout sample_helpers)).2).2).2
              eq_refl eq_refl) as [_ Hvalue].
  - by vm_compute.
  - rewrite Hvalue. by vm_compute.
Defined.

Lemma record_dict_allocated st d : record st = VDict d -> allocated st (output st).
Proof.
  unfold record, deref, allocated. rewrite lookup_total_alt.
  destruct (heap st !! output st); [by eexists | done].
Qed.

Lemma fresh_not_allocated st l :
  allocated st l -> fresh (dom (heap st)) <> l.
Proof.
  intros Hl Heq. apply (is_fresh (dom (heap st))).
  rewrite Heq. by apply elem_of_dom.
Qed.

(** X19. Under the gpuvsmi compatibility with the csv format the store
    rebinds [self.output] to a new dictionary.  The object it referred to
    before is left with the merged record, before the status strings are
    replaced and [bdf] and [uuid] renamed: this is what a watch sample
    taken earlier keeps showing. *)
Theorem gpuvsmi_csv_store_rebinds st h argument data st' :
  compatibility st = "gpuvsmi" -> format st = "csv" ->
  store_output h argument data st = (Ok tt, st') ->
  exists st1 merged,
    store_csv (gpu_id_of st h) argument data st = (Ok tt, st1)
    /\ record st1 = VDict merged
    /\ output st' <> output st
    /\ deref st' (output st) = VDict merged
    /\ record st' = VDict (Dict.update [] (gpuv_entry <$> merged)).
Proof.
  intros Hc Hf. rewrite store_output_gpuvsmi by done.
  unfold _store_output_gpuvsmi, bind, get_self. unfold_format.
  rewrite Hf. simpl.
  destruct (store_csv (gpu_id_of st h) argument data st) as [[[]|e] st1] eqn:Hcsv;
    [|done].
  destruct (record st1) as [| | | | |merged] eqn:Hrec; try done.
  rewrite gpuv_postprocess_eq. unfold rebind_output. intros [= <-].
  pose proof Hcsv as (d & merged' & _ & _ & Hout & _)%store_csv_Ok.
  pose proof (fresh_not_allocated st1 _ (record_dict_allocated _ _ Hrec)) as Hfresh.
  exists st1, merged. split_and!; [done | done | | |].
  - cbn [output with_output]. by rewrite <- Hout.
  - unfold deref. cbn [heap with_output with_heap]. rewrite <- Hout.
    by rewrite lookup_total_insert_ne.
  - unfold record, deref. cbn [heap output with_output with_heap].
    apply lookup_total_insert_eq.
Qed.

Lemma gpuvsmi_csv_store_rebinds_witness :
  exists st1 merged,
    store_csv 0%Z "status" (VStr "AMDSMI_STATUS_NO_DATA")
      (init "gpuvsmi" "csv" Stdout sample_helpers) = (Ok tt, st1)
    /\ record st1 = VDict merged
    /\ output (store_output 0%Z "status" (VStr "AMDSMI_STATUS_NO_DATA")
                 (init "gpuvsmi" "csv" Stdout sample_helpers)).2
       <> output (init "gpuvsmi" "csv" Stdout sample_helpers)
    /\ deref (store_output 0%Z "status" (VStr "AMDSMI_STATUS_NO_DATA")
                (init "gpuvsmi" "csv" Stdout sample_helpers)).2
         (output (init "gpuvsmi" "csv" Stdout sample_helpers))
       = VDict merged
    /\ record (store_output 0%Z "status" (VStr "AMDSMI_STATUS_NO_DATA")
                 (init "gpuvsmi" "csv" Stdout sample_helpers)).2
       = VDict (Dict.update [] (gpuv_entry <$> merged)).
Proof.
  apply (gpuvsmi_csv_store_rebinds
           (init "gpuvsmi" "csv" Stdout sample_helpers)
           0%Z "status" (VStr "AMDSMI_STATUS_NO_DATA")).
  - reflexivity.
  - reflexivity.
  - by vm_compute.
Defined.

(** ** Capture of a device record *)

(** X20. [store_multiple_device_output] does nothing when the current
    record is empty: the multi-device list gets no empty record. *)
Theorem store_multiple_device_output_empty st :
  truthy (record st) = false ->
  store_multiple_device_output st = (Ok tt, st).
Proof.
  intros Hempty. unfold store_multiple_device_output, bind, get_self.
  by rewrite Hempty.
Qed.

Lemma store_multiple_device_output_empty_witness :
  store_multiple_device_output (init "amdsmi" "json" Stdout sample_helpers)
  = (Ok tt, init "amdsmi" "json" Stdout sample_helpers).
Proof. apply store_multiple_device_output_empty. reflexivity. Defined.

Lemma truthy_allocated st : truthy (record st) = true -> allocated st (output st).
Proof.
  unfold record, deref, allocated. rewrite lookup_total_alt.
  destruct (heap st !! output st); [by eexists | done].
Qed.

(** X21. With a record that is not empty, [store_multiple_device_output]
    appends the record to the multi-device list, after the records
    captured before and without changing them, and starts a new, empty
    record in a new object.  Every object allocated before keeps its
    value, and the watch history keeps its samples: a sample of a record
    shows the same record as before, while a sample of the multi-device
    list refers to the list object and so shows the list with the record
    appended. *)
Theorem store_multiple_device_output_appends st :
  truthy (record st) = true ->
  Forall (allocated st) (multiple_device_output st) ->
  exists st',
    store_multiple_device_output st = (Ok tt, st')
    /\ multiple_device_value st' = multiple_device_value st ++ [record st]
    /\ record st' = VDict []
    /\ output st' <> output st
    /\ (forall l, allocated st l -> deref st' l = deref st l)
    /\ watch_output st' = watch_output st
    /\ (forall l, allocated st l ->
          wref_value st' (WRecord l) = wref_value st (WRecord l))
    /\ wref_value st' WMulti = VList (multiple_device_value st ++ [record st]).
Proof.
  intros Htruthy Hmulti.
  unfold store_multiple_device_output, bind, get_self. rewrite Htruthy.
  cbn [negb]. unfold rebind_output. eexists. split; [done|].
  cbn [heap output multiple_device_output watch_output
       with_multiple_device_output with_output with_heap].
  assert (forall l, allocated st l ->
            deref
              (with_output (fresh (dom (heap st)))
                 (with_heap (<[fresh (dom (heap st)) := VDict []]> (heap st))
                    (with_multiple_device_output
                       (multiple_device_output st ++ [output st]) st))) l
            = deref st l) as Hderef.
  { intros l Hl. unfold deref.
    cbn [heap with_multiple_device_output with_output with_heap].
    apply lookup_total_insert_ne. by apply (fresh_not_allocated st). }
  assert (multiple_device_value
            (with_output (fresh (dom (heap st)))
               (with_heap (<[fresh (dom (heap st)) := VDict []]> (heap st))
                  (with_multiple_device_output
                     (multiple_device_output st ++ [output st]) st)))
          = multiple_device_value st ++ [record st]) as Hvalue.
  { unfold multiple_device_value.
    cbn [multiple_device_output with_multiple_device_output with_output
         with_heap].
    rewrite fmap_app. f_equal.
    - apply Forall_fmap_ext_1. eapply Forall_impl; [done|].
      intros l Hl. by apply Hderef.
    - cbn [fmap list_fmap]. f_equal. apply Hderef. by apply truthy_allocated. }
  split_and!; [done | | | done | done | done |].
  - unfold record, deref.
    cbn [heap output with_multiple_device_output with_output with_heap].
    apply lookup_total_insert_eq.
  - apply fresh_not_allocated. by apply truthy_allocated.
  - cbn [wref_value]. by rewrite Hvalue.
Qed.

Lemma store_multiple_device_output_appends_witness :
  exists st',
    store_multiple_device_output
      (store_output 0%Z "temperature" (VInt 40)
         (init "amdsmi" "json" Stdout sample_helpers)).2 = (Ok tt, st')
    /\ multiple_device_value st' = [VDict [("gpu", VInt 0); ("temperature", VInt 40)]]
    /\ record st' = VDict []
    /\ wref_value st' WMulti
       = VList [VDict [("gpu", VInt 0); ("temperature", VInt 40)]].
Proof.
  destruct (store_multiple_device_output_appends
              (store_output 0%Z "temperature" (VInt 40)
                 (init "amdsmi" "json" Stdout sample_helpers)).2)
    as (st' & Hstore & Hvalue & Hrec & _ & _ & _ & _ & Hmulti).
  - reflexivity.
  - constructor.
  - exists st'. split_and!; [done | by rewrite Hvalue | done | by rewrite Hmulti].
Defined.

(** ** The emitters, continued *)

Lemma remove_double_quotes_chars s :
  chars (remove_double_quotes s)
  = filter (fun c => c <> double_quote) (chars s).
Proof.
  unfold chars. induction s as [|c s IH]; [done|].
  cbn [remove_double_quotes String.list_ascii_of_string].
  rewrite filter_cons. destruct (Ascii.eqb_spec c double_quote) as [->|Hne].
  - by rewrite decide_False by (by intros []).
  - rewrite decide_True by done.
    cbn [String.list_ascii_of_string]. by rewrite IH.
Qed.

Section EmittersContinued.

Context `{Serializers}.

(** X22. The csv emitter does not handle an empty multi-device list: the
    header is taken from the first record, and the call fails with
    [IndexError]; nothing is printed and no file content changes. *)
Theorem csv_emit_empty_list st w :
  multiple_device_output st = [] ->
  exists w',
    _print_csv_output true false st w = (Raise IndexError, w')
    /\ terminal w' = terminal w
    /\ forall p, file_content w' p = file_content w p.
Proof.
  intros Hempty. unfold _print_csv_output, stored_csv_output.
  unfold multiple_device_value. rewrite Hempty. cbn [fmap list_fmap write_csv].
  destruct (destination st) as [|p].
  - by exists w.
  - eexists. split_and!; [done | done |].
    intros p'. apply file_content_touch.
Qed.

Lemma csv_row_self d : Dict.wf d -> csv_row (Dict.keys d) d = Dict.values d.
Proof.
  unfold csv_row, Dict.wf, Dict.keys, Dict.values.
  induction d as [|[k v] d IH]; intros Hwf; [done|].
  rewrite !fmap_cons in *. cbn [fst snd] in *.
  apply NoDup_cons in Hwf as [Hk Hwf]. f_equal.
  - cbn [Dict.get]. by rewrite decide_True.
  - rewrite <- IH by done. apply Forall_fmap_ext_1, Forall_forall.
    intros k' Hk'. cbn [Dict.get].
    rewrite decide_False; [done|]. by intros ->.
Qed.

(** X23. A single record is emitted as two lines, the line of its keys
    and the line of its values, both in the insertion order of the
    record. *)
Theorem csv_emit_single_record st w d :
  record st = VDict d -> Dict.wf d ->
  _print_csv_output false false st w
  = (Ok tt,
     emit_csv st
       (csv_writerow (VStr <$> Dict.keys d) +:+ csv_writerow (Dict.values d)) w).
Proof.
  intros Hrec Hwf. unfold _print_csv_output, stored_csv_output, emit_csv.
  rewrite Hrec.
  change [VDict d] with (VDict <$> d :: []).
  rewrite write_csv_fits by constructor.
  unfold csv_text, writeheader. cbn [fold_left].
  rewrite csv_row_self by done.
  destruct (destination st); [|done].
  by destruct (is_gpuvsmi_compatibility st).
Qed.

(** X24. Under the gpuvsmi compatibility the text that the csv emitter
    prints on the terminal is the csv text of the records (the header of
    the first record and one line per record) with its double-quote
    characters removed and nothing else changed: the characters of the
    printed text are those of the csv text that are not a double quote,
    in the same order. *)
Theorem csv_emit_gpuvsmi_no_double_quote m st w first rest :
  compatibility st = "gpuvsmi" -> destination st = Stdout ->
  stored_csv_output m st = Some (VDict <$> first :: rest) ->
  Forall (fun d => Dict.keys d ⊆ Dict.keys first) rest ->
  exists printed,
    _print_csv_output m false st w = (Ok tt, print printed w)
    /\ chars printed
       = filter (fun c => c <> double_quote)
           (chars (csv_text (Dict.keys first) (first :: rest)))
    /\ double_quote ∉ chars printed.
Proof.
  intros Hc Hd Hstored Hfit.
  exists (remove_double_quotes (csv_text (Dict.keys first) (first :: rest))).
  split_and!.
  - unfold _print_csv_output. rewrite Hd, Hstored.
    rewrite write_csv_fits by done.
    unfold is_gpuvsmi_compatibility. by rewrite bool_decide_eq_true_2.
  - apply remove_double_quotes_chars.
  - rewrite remove_double_quotes_chars, list_elem_of_filter. tauto.
Qed.

(** X25. The two destinations are exclusive, for the json and for the csv
    emitter, whatever the arguments and whether the call returns or
    raises: with the terminal as destination no file is created or
    changed, and with a file as destination nothing is printed and no
    other file is changed. *)
Theorem emitters_write_to_destination_only m wo st w :
  (destination st = Stdout ->
   disk (_print_json_output m wo st w).2 = disk w
   /\ disk (_print_csv_output m wo st w).2 = disk w)
  /\ (forall p, destination st = FilePath p ->
      terminal (_print_json_output m wo st w).2 = terminal w
      /\ terminal (_print_csv_output m wo st w).2 = terminal w
      /\ forall p', p' <> p ->
           file_content (_print_json_output m wo st w).2 p' = file_content w p'
           /\ file_content (_print_csv_output m wo st w).2 p' = file_content w p').
Proof.
  split.
  - intros Hd. unfold _print_json_output, _print_csv_output. rewrite Hd.
    split; [by destruct wo|].
    destruct wo; [done|].
    destruct (stored_csv_output m st) as [records|]; [|done].
    destruct (write_csv records) as [[[]|e] text]; [|done].
    by destruct (is_gpuvsmi_compatibility st).
  - intros p Hd. unfold _print_json_output, _print_csv_output. rewrite Hd.
    split_and!.
    + by destruct wo.
    + destruct wo; [done|].
      destruct (stored_csv_output m st) as [records|]; [|done].
      by destruct (write_csv records).
    + intros p' Hp'. split.
      * destruct wo; cbn [snd].
        -- unfold file_content, file_overwrite. cbn [disk].
           by rewrite lookup_insert_ne.
        -- by apply file_content_append_ne.
      * destruct wo; [done|].
        destruct (stored_csv_output m st) as [records|];
          [destruct (write_csv records)|]; cbn [snd];
          by apply file_content_append_ne.
Qed.

Lemma watch_tick_Ok_any collect m now st w st1 w1 :
  Forall is_collect collect ->
  exec_calls (watch_tick collect m now) (st, w) = (Ok tt, (st1, w1)) ->
  (_print_json_output m false st1 w).2 = w1
  /\ (exists values, watch_output st1 = watch_output st ++ [(now, values)])
  /\ destination st1 = destination st.
Proof.
  intros Hcollect Hexec. unfold watch_tick in Hexec.
  apply exec_calls_app_Ok in Hexec as ([st0 w0] & Hexec0 & Hexec).
  apply exec_collect_Ok in Hexec0 as (-> & Hwatch & Hdest0); [|done].
  cbn [exec_calls exec_call fst snd store_watch_output] in Hexec.
  destruct (_print_json_output m false
              (with_watch_output
                 (watch_output st0
                  ++ [(now, if m then WMulti else WRecord (output st0))]) st0) w)
    as [[[]|e] w2] eqn:Hprint; [|done].
  injection Hexec as <- <-. rewrite Hprint.
  split_and!; [done | | done].
  eexists. cbn [watch_output with_watch_output]. by rewrite Hwatch.
Qed.

(** X26. A watch session of any number of ticks, followed by the flush:
    the watch history gains one sample per tick, with the timestamps of
    the ticks in order.  With a file destination the final content of the
    file is the json text of that history; with the terminal as
    destination each tick prints one text, the flush prints nothing, and
    no file is changed. *)
Theorem watch_ticks_flush ticks m st w st' w' :
  Forall (fun t => Forall is_collect t.1) ticks ->
  exec_calls (watch_ticks ticks m ++ [CallPrintJsonOutput m true]) (st, w)
  = (Ok tt, (st', w')) ->
  (fst <$> watch_output st' = (fst <$> watch_output st) ++ (snd <$> ticks))
  /\ (forall p, destination st = FilePath p ->
      file_content w' p = json_dumps (watch_value st'))
  /\ (destination st = Stdout ->
      disk w' = disk w
      /\ exists texts,
           terminal w' = terminal w ++ texts /\ length texts = length ticks).
Proof.
  intros Hticks Hexec.
  apply exec_calls_app_Ok in Hexec as ([st3 w3] & Hexec & Hflush).
  assert ((fst <$> watch_output st3
           = (fst <$> watch_output st) ++ (snd <$> ticks))
          /\ destination st3 = destination st
          /\ (forall p, destination st = FilePath p -> terminal w3 = terminal w)
          /\ (destination st = Stdout ->
              disk w3 = disk w
              /\ exists texts,
                   terminal w3 = terminal w ++ texts
                   /\ length texts = length ticks))
    as (Hstamps & Hdest & _ & Hstdout).
  { clear Hflush. revert st w Hexec.
    induction Hticks as [|[collect now] ticks Hc Hticks IH]; intros st w Hexec.
    - injection Hexec as <- <-. rewrite app_nil_r.
      split_and!; [done | done | done |].
      intros _. split; [done|]. exists []. by rewrite app_nil_r.
    - unfold watch_ticks in Hexec. rewrite fmap_cons in Hexec.
      cbn [concat fst snd] in Hexec.
      apply exec_calls_app_Ok in Hexec as ([st1 w1] & Htick & Hexec).
      apply watch_tick_Ok_any in Htick as (Hw1 & [values Hwatch] & Hd1);
        [|done].
      apply IH in Hexec as (Hstamps & Hdest & Hfile & Hstdout).
      rewrite Hwatch in Hstamps. rewrite Hd1 in Hdest, Hfile, Hstdout.
      split_and!.
      + rewrite Hstamps, fmap_app, fmap_cons. cbn [fst snd fmap list_fmap].
        by rewrite <- app_assoc.
      + done.
      + intros p Hp. rewrite (Hfile p Hp). subst w1.
        unfold _print_json_output. by rewrite Hd1, Hp.
      + intros Hs. destruct (Hstdout Hs) as (Hdisk & texts & Hterm & Hlen).
        subst w1. unfold _print_json_output in *. rewrite Hd1, Hs in *.
        cbn [snd print terminal disk] in *. split; [done|].
        eexists (_ :: texts). rewrite Hterm, <- app_assoc.
        split; [done|]. cbn [length]. by rewrite Hlen. }
  cbn [exec_calls exec_call fst snd] in Hflush.
  unfold _print_json_output in Hflush.
  split_and!; [| |].
  - destruct (destination st3); by injection Hflush as <- <-.
  - intros p Hp. rewrite Hdest, Hp in Hflush. injection Hflush as <- <-.
    apply file_content_overwrite.
  - intros Hs. rewrite Hdest, Hs in Hflush. injection Hflush as <- <-.
    by apply Hstdout.
Qed.

End EmittersContinued.

Lemma csv_emit_empty_list_witness :
  exists w',
    _print_csv_output true false (init "amdsmi" "csv" Stdout sample_helpers)
      {| terminal := []; disk := ∅ |}
    = (Raise IndexError, w')
    /\ terminal w' = terminal {| terminal := []; disk := ∅ |}
    /\ forall p,
         file_content w' p = file_content {| terminal := []; disk := ∅ |} p.
Proof. apply csv_emit_empty_list. reflexivity. Defined.

Lemma csv_emit_single_record_witness :
  _print_csv_output false false
    (store_output 0%Z "temperature" (VInt 40)
       (init "amdsmi" "csv" (FilePath "out.csv") sample_helpers)).2
    {| terminal := []; disk := ∅ |}
  = (Ok tt,
     emit_csv
       (store_output 0%Z "temperature" (VInt 40)
          (init "amdsmi" "csv" (FilePath "out.csv") sample_helpers)).2
       (csv_writerow (VStr <$> Dict.keys [("gpu", VInt 0); ("temperature", VInt 40)])
        +:+ csv_writerow (Dict.values [("gpu", VInt 0); ("temperature", VInt 40)]))
       {| terminal := []; disk := ∅ |}).
Proof.
  apply csv_emit_single_record.
  - reflexivity.
  - apply (bool_decide_unpack _). by vm_compute.
Defined.

Lemma csv_emit_gpuvsmi_no_double_quote_witness :
  exists printed,
    _print_csv_output false false
      (store_output 0%Z "asic" (VList [VStr "a"; VStr "b"])
         (init "gpuvsmi" "csv" Stdout sample_helpers)).2
      {| terminal := []; disk := ∅ |}
    = (Ok tt, print printed {| terminal := []; disk := ∅ |})
    /\ chars printed
       = filter (fun c => c <> double_quote)
           (chars
              (csv_text (Dict.keys [("gpu", VInt 0); ("asic", VList [VStr "a"; VStr "b"])])
                 [[("gpu", VInt 0); ("asic", VList [VStr "a"; VStr "b"])]]))
    /\ double_quote ∉ chars printed.
Proof.
  apply (csv_emit_gpuvsmi_no_double_quote false
           (store_output 0%Z "asic" (VList [VStr "a"; VStr "b"])
              (init "gpuvsmi" "csv" Stdout sample_helpers)).2
           {| terminal := []; disk := ∅ |}
           [("gpu", VInt 0); ("asic", VList [VStr "a"; VStr "b"])] []).
  - reflexivity.
  - reflexivity.
  - reflexivity.
  - constructor.
Defined.

Lemma watch_ticks_flush_witness :
  fst <$> watch_output
            (exec_calls
               (watch_ticks
                  [([CallStoreOutput 0%Z "temperature" (VInt 40)], 100%Z);
                   ([CallStoreOutput 0%Z "temperature" (VInt 50)], 101%Z)]
                  false
                ++ [CallPrintJsonOutput false true])
               (init "amdsmi" "json" (FilePath "watch.json") sample_helpers,
                {| terminal := []; disk := ∅ |})).2.1
  = (fst <$> watch_output
               (init "amdsmi" "json" (FilePath "watch.json") sample_helpers))
    ++ (snd <$> [([CallStoreOutput 0%Z "temperature" (VInt 40)], 100%Z);
                 ([CallStoreOutput 0%Z "temperature" (VInt 50)], 101%Z)]).
Proof.
  match goal with
  | |- _ <$> watch_output (exec_calls ?cs ?s0).2.1 = _ =>
      assert (exec_calls cs s0
              = (Ok tt, ((exec_calls cs s0).2.1, (exec_calls cs s0).2.2)))
        as Hexec by (by vm_compute)
  end.
  apply (watch_ticks_flush
           [([CallStoreOutput 0%Z "temperature" (VInt 40)], 100%Z);
            ([CallStoreOutput 0%Z "temperature" (VInt 50)], 101%Z)]
           false _ _ _ _ ltac:(repeat constructor) Hexec).
Defined.

(** ** Key capitalization *)

Section CapitalizationProperties.

Context `{StrUpper}.

Lemma capitalize_keys_update d :
  _capitalize_keys d = Dict.update [] (capitalize_entry <$> d).
Proof. unfold _capitalize_keys, Dict.update. by rewrite fold_left_fmap. Qed.

Lemma capitalize_value_dict d :
  capitalize_value (VDict d) = VDict (_capitalize_keys d).
Proof. done. Qed.

Lemma weight_elem_of_list x (l : list value) :
  x ∈ l -> weight x <= list_sum (map weight l).
Proof. induction 1; simpl; lia. Qed.

Lemma weight_elem_of_dict kv (d : dict) :
  kv ∈ d -> weight kv.2 <= list_sum (map (fun kv => weight kv.2) d).
Proof. induction 1; simpl; lia. Qed.

Lemma map_fixed_in {A : Type} (f : A -> A) (l : list A) :
  (forall x, x ∈ l -> f (f x) = f x) -> map f (map f l) = map f l.
Proof.
  induction l as [|x l IH]; intros Hl; [done|].
  cbn [map]. f_equal.
  - apply Hl. apply list_elem_of_here.
  - apply IH. intros y Hy. apply Hl. by right.
Qed.

Lemma capitalize_value_idempotent_fuel n v :
  weight v <= n -> capitalize_value (capitalize_value v) = capitalize_value v.
Proof.
  revert v. induction n as [|n IH]; intros v Hn.
  { destruct v; simpl in Hn; lia. }
  destruct v as [| | | |l|d]; try done.
  - cbn [capitalize_value]. f_equal.
    apply (map_fixed_in
             (fun data => match data with
                          | VDict _ => capitalize_value data
                          | _ => data
                          end)).
    intros x Hx. apply weight_elem_of_list in Hx. cbn [weight] in Hn.
    destruct x as [| | | | |dx]; try done.
    change (capitalize_value (capitalize_value (VDict dx))
            = capitalize_value (VDict dx)).
    apply IH. lia.
  - rewrite !capitalize_value_dict. f_equal.
    rewrite (capitalize_keys_update (_capitalize_keys d)).
    assert (capitalize_entry <$> _capitalize_keys d = _capitalize_keys d) as ->.
    { apply fmap_fixed. intros kv Hkv.
      rewrite capitalize_keys_update in Hkv.
      apply dict_update_elem_of in Hkv as [Hkv|Hkv];
        [by apply elem_of_nil in Hkv|].
      apply list_elem_of_fmap in Hkv as ([k0 v0] & -> & Hin).
      unfold capitalize_entry. cbn [fst snd]. f_equal.
      - apply upper_idempotent.
      - apply IH. apply weight_elem_of_dict in Hin. cbn [weight snd] in Hn, Hin.
        lia. }
    apply (dict_rebuild []). rewrite capitalize_keys_update.
    apply dict_update_wf. constructor.
Qed.

(** X27. [_capitalize_keys] is idempotent: capitalizing a capitalized
    record changes nothing, at any depth. *)
Theorem capitalize_keys_idempotent (d : dict) :
  _capitalize_keys (_capitalize_keys d) = _capitalize_keys d.
Proof.
  pose proof (capitalize_value_idempotent_fuel (weight (VDict d)) (VDict d)
                (le_n _)) as Hidem.
  rewrite !capitalize_value_dict in Hidem. by injection Hidem.
Qed.

(** X28. When the upper-case forms that [str.upper] gives for the keys of
    a record are distinct, [_capitalize_keys] keeps the entries in their
    order, each under the upper-case form of its key and with its value
    capitalized in turn. *)
Theorem capitalize_keys_entries (d : dict) :
  NoDup (upper <$> Dict.keys d) ->
  _capitalize_keys d = capitalize_entry <$> d.
Proof.
  intros Hnodup. rewrite capitalize_keys_update. apply (dict_rebuild []).
  unfold Dict.wf, Dict.keys in *. rewrite app_nil_l.
  by rewrite <- !list_fmap_compose in *.
Qed.

Lemma dict_length_set k v d : length (Dict.set k v d) <= S (length d).
Proof.
  induction d as [|[k' v'] r IH]; simpl; [lia|].
  destruct (decide (k = k')); simpl; lia.
Qed.

Lemma dict_length_update d other :
  length (Dict.update d other) <= length d + length other.
Proof.
  revert d. induction other as [|kv other IH]; intros d; [simpl; lia|].
  rewrite dict_update_cons. etrans; [apply IH|].
  pose proof (dict_length_set kv.1 kv.2 d). simpl. lia.
Qed.

(** X29. The keys of the capitalized record are the upper-case forms
    that [str.upper] gives for the keys of the record, so each of them is
    its own upper-case form; keys with the same upper-case form end under
    one key, and the record never grows. *)
Theorem capitalize_keys_keys (d : dict) :
  (forall k,
     k ∈ Dict.keys (_capitalize_keys d)
     <-> exists k0, k0 ∈ Dict.keys d /\ k = upper k0)
  /\ (forall k, k ∈ Dict.keys (_capitalize_keys d) -> upper k = k)
  /\ NoDup (Dict.keys (_capitalize_keys d))
  /\ length (_capitalize_keys d) <= length d.
Proof.
  assert (forall k,
    k ∈ Dict.keys (_capitalize_keys d)
    <-> exists k0, k0 ∈ Dict.keys d /\ k = upper k0) as Hkeys.
  { intros k. rewrite capitalize_keys_update, dict_keys_update_nil.
    unfold Dict.keys. rewrite <- list_fmap_compose, list_elem_of_fmap. split.
    - intros ([k0 v0] & -> & Hin). exists k0. split; [|done].
      apply list_elem_of_fmap. by exists (k0, v0).
    - intros (k0 & ([k1 v1] & -> & Hin)%list_elem_of_fmap & ->).
      by exists (k1, v1). }
  split_and!; [done | | |].
  - intros k (k0 & _ & ->)%Hkeys. apply upper_idempotent.
  - rewrite capitalize_keys_update. apply dict_update_wf. constructor.
  - rewrite capitalize_keys_update.
    pose proof (dict_length_update [] (capitalize_entry <$> d)) as Hlen.
    rewrite length_fmap in Hlen. simpl in Hlen. lia.
Qed.

(** X30. Only the dictionaries that are items of a list stored under a
    key are capitalized: a list without dictionary items is kept as it
    is, whatever its items contain, so the keys of a dictionary inside a
    list inside a list keep their case. *)
Theorem capitalize_value_list_without_dict (l : list value) :
  Forall (fun x => is_dict x = false) l ->
  capitalize_value (VList l) = VList l.
Proof.
  intros Hl. cbn [capitalize_value]. f_equal.
  induction Hl as [|x l Hx Hl IH]; [done|].
  cbn [map]. rewrite IH. f_equal. by destruct x.
Qed.

End CapitalizationProperties.

Lemma capitalize_keys_entries_witness :
  _capitalize_keys [("gpu", VInt 0); ("asic", VDict [("market_name", VStr "X")])]
  = capitalize_entry
      <$> [("gpu", VInt 0); ("asic", VDict [("market_name", VStr "X")])].
Proof.
  apply capitalize_keys_entries.
  apply (bool_decide_unpack _). by vm_compute.
Defined.

Lemma capitalize_value_list_without_dict_witness :
  capitalize_value (VList [VList [VDict [("gfx", VInt 1)]]; VStr "idle"])
  = VList [VList [VDict [("gfx", VInt 1)]]; VStr "idle"].
Proof. apply capitalize_value_list_without_dict. repeat constructor. Defined.
